(** * Published-status reconciliation: identifier normalisation, datasource
    parsing, context walking, endpoint fetching and response reconciliation.

    Shallow embedding of [src/utils/dataProcessing.ts] and
    [src/utils/graphqlQueries.ts].

    Modelling conventions.
    - A JavaScript string is a [string] of 8-bit characters; [toUpperCase]
      and [trim] act on the ASCII range (identifiers, aliases and paths of
      this program are ASCII).
    - A JavaScript number that carries an item version is a [Z].
    - A JavaScript object used as a dictionary is a [gmap string _];
      a slot holding [null] is [Some None].
    - A promise is its outcome: [Resolved v] or [Rejected e]. *)

From Stdlib Require Import ZArith Ascii String.
From stdpp Require Import base option list strings gmap pretty.

Local Open Scope string_scope.
Local Set Warnings "-register-all".

(** ** JavaScript string primitives *)

Module JsString.

Fixpoint filter_chars (keep : ascii -> bool) (s : string) : string :=
  match s with
  | EmptyString => EmptyString
  | String c s' =>
      if keep c then String c (filter_chars keep s') else filter_chars keep s'
  end.

Fixpoint map_chars (f : ascii -> ascii) (s : string) : string :=
  match s with
  | EmptyString => EmptyString
  | String c s' => String (f c) (map_chars f s')
  end.

Fixpoint all_chars (p : ascii -> bool) (s : string) : bool :=
  match s with
  | EmptyString => true
  | String c s' => p c && all_chars p s'
  end.

Definition is_lower (c : ascii) : bool :=
  let n := nat_of_ascii c in (97 <=? n)%nat && (n <=? 122)%nat.

Definition upper_char (c : ascii) : ascii :=
  if is_lower c then ascii_of_nat (nat_of_ascii c - 32) else c.

(** [s.toUpperCase()] *)
Definition toUpperCase (s : string) : string := map_chars upper_char s.

(** [s.substring(a, b)] for [a <= b]; indices past the end are clamped. *)
Definition substring (a b : nat) (s : string) : string :=
  String.substring a (b - a) s.

(** [s.substring(a)] *)
Fixpoint substring_from (a : nat) (s : string) : string :=
  match a, s with
  | O, _ => s
  | S _, EmptyString => EmptyString
  | S a', String _ s' => substring_from a' s'
  end.

(** [s.startsWith(p)] *)
Definition startsWith (p s : string) : bool := String.prefix p s.

Definition is_space (c : ascii) : bool :=
  let n := nat_of_ascii c in
  ((9 <=? n)%nat && (n <=? 13)%nat) || (n =? 32)%nat.

Fixpoint trim_start (s : string) : string :=
  match s with
  | EmptyString => EmptyString
  | String c s' => if is_space c then trim_start s' else s
  end.

(** Drops trailing white space: a character is kept when something that
    is kept follows it, or when it is not white space itself. *)
Fixpoint trim_end (s : string) : string :=
  match s with
  | EmptyString => EmptyString
  | String c s' =>
      match trim_end s' with
      | EmptyString => if is_space c then EmptyString else String c EmptyString
      | r => String c r
      end
  end.

(** [s.trim()] *)
Definition trim (s : string) : string := trim_end (trim_start s).

(** [s.split(sep)] for a one-character separator: always at least one
    segment, the empty string splits into one empty segment. *)
Fixpoint split (sep : ascii) (s : string) : list string :=
  match s with
  | EmptyString => [EmptyString]
  | String c s' =>
      if Ascii.eqb c sep then EmptyString :: split sep s'
      else match split sep s' with
           | seg :: rest => String c seg :: rest
           | [] => [String c EmptyString]
           end
  end.

Definition is_empty (s : string) : bool :=
  match s with EmptyString => true | _ => false end.

End JsString.

(** ** Identifier Normalizer *)

(** The character class [[{}-]]. *)
Definition is_brace_or_hyphen (c : ascii) : bool :=
  Ascii.eqb c "{" || Ascii.eqb c "}" || Ascii.eqb c "-".

(** The character class [[{}]]. *)
Definition is_brace (c : ascii) : bool :=
  Ascii.eqb c "{" || Ascii.eqb c "}".

(** [s.replace(/[{}-]/g, '')] *)
Definition strip_braces_hyphens (s : string) : string :=
  JsString.filter_chars (fun c => negb (is_brace_or_hyphen c)) s.

(** [s.replace(/[{}]/g, '')] *)
Definition strip_braces (s : string) : string :=
  JsString.filter_chars (fun c => negb (is_brace c)) s.

Definition normalizeItemId (itemId : string) : string :=
  JsString.toUpperCase (strip_braces_hyphens itemId).

Definition formatGuidWithoutHyphens (guid : string) : string :=
  JsString.toUpperCase (strip_braces_hyphens guid).

Definition formatGuidWithHyphens (guid : string) : string :=
  let clean := JsString.toUpperCase (strip_braces_hyphens guid) in
  if negb (String.length clean =? 32)%nat then guid
  else JsString.substring 0 8 clean +:+ "-" +:+
       JsString.substring 8 12 clean +:+ "-" +:+
       JsString.substring 12 16 clean +:+ "-" +:+
       JsString.substring 16 20 clean +:+ "-" +:+
       JsString.substring 20 32 clean.

Definition formatGuidForLive (guid : string) : string :=
  formatGuidWithHyphens guid.

Definition is_hex (c : ascii) : bool :=
  let n := nat_of_ascii c in
  ((48 <=? n)%nat && (n <=? 57)%nat)
  || ((65 <=? n)%nat && (n <=? 70)%nat)
  || ((97 <=? n)%nat && (n <=? 102)%nat).

(** Matches [[0-9A-Fa-f]{n}] at the head of [s]; the rest on success. *)
Fixpoint match_hex (n : nat) (s : string) : option string :=
  match n, s with
  | O, _ => Some s
  | S n', String c s' => if is_hex c then match_hex n' s' else None
  | S _, EmptyString => None
  end.

Definition match_char (c : ascii) (s : string) : option string :=
  match s with
  | String c' s' => if Ascii.eqb c' c then Some s' else None
  | EmptyString => None
  end.

(** An optional character: consumed when present. The characters made
    optional below are no hexadecimal digits, so the greedy choice is the
    only one that can lead to a match. *)
Definition match_opt_char (c : ascii) (s : string) : string :=
  match match_char c s with Some s' => s' | None => s end.

(** [/^[{]?[0-9A-Fa-f]{8}-[0-9A-Fa-f]{4}-[0-9A-Fa-f]{4}-[0-9A-Fa-f]{4}-[0-9A-Fa-f]{12}[}]?$/] *)
Definition isValidGuid (str : string) : bool :=
  let r :=
    s1 ← match_hex 8 (match_opt_char "{" str);
    s2 ← match_char "-" s1;
    s3 ← match_hex 4 s2;
    s4 ← match_char "-" s3;
    s5 ← match_hex 4 s4;
    s6 ← match_char "-" s5;
    s7 ← match_hex 4 s6;
    s8 ← match_char "-" s7;
    s9 ← match_hex 12 s8;
    Some (match_opt_char "}" s9) in
  match r with
  | Some rest => JsString.is_empty rest
  | None => false
  end.

(** ** Untyped JavaScript values

    The page context is [unknown] to the program: every field is read
    defensively. Numbers are integers here (no field of the context that
    the program reads is compared or computed with as a number; only its
    truthiness matters). *)

Inductive JsValue : Type :=
  | JUndefined
  | JNull
  | JBool (b : bool)
  | JNum (n : Z)
  | JStr (s : string)
  | JArr (items : list JsValue)
  | JObj (fields : gmap string JsValue).

(** JavaScript truthiness. *)
Definition truthy (v : JsValue) : bool :=
  match v with
  | JUndefined | JNull => false
  | JBool b => b
  | JNum n => negb (n =? 0)%Z
  | JStr s => negb (JsString.is_empty s)
  | JArr _ | JObj _ => true
  end.

(** [a || b] *)
Definition js_or (a b : JsValue) : JsValue := if truthy a then a else b.

(** [typeof v === 'object'] for a truthy [v]. *)
Definition is_object (v : JsValue) : bool :=
  match v with JArr _ | JObj _ => true | _ => false end.

(** [v.k] or [v[k]]: a [TypeError] ([None]) on [null] and [undefined],
    [undefined] for a key that is missing. None of the keys this program
    reads is an own property of an array, a string, a number or a
    boolean. *)
Definition getProp (v : JsValue) (k : string) : option JsValue :=
  match v with
  | JUndefined | JNull => None
  | JObj fields => Some (default JUndefined (fields !! k))
  | _ => Some JUndefined
  end.

(** Property read on a value already known to be an object. *)
Definition field (v : JsValue) (k : string) : JsValue :=
  default JUndefined (getProp v k).

(** [if (!l.includes(x)) l.push(x)] *)
Definition push_unique (l : list string) (x : string) : list string :=
  if bool_decide (x ∈ l) then l else l ++ [x].

(** [xs.forEach(x => { if (!l.includes(x)) l.push(x) })] *)
Definition push_all_unique (l xs : list string) : list string :=
  foldl push_unique l xs.

(** [if (!l.includes(x)) l.unshift(x)] *)
Definition unshift_unique (l : list string) (x : string) : list string :=
  if bool_decide (x ∈ l) then l else x :: l.

(** ** Datasource Expression Parser *)

Record ParsedDatasource : Type := mkParsed {
  directIds : list string;
  localPaths : list string
}.

Definition no_datasources : ParsedDatasource := mkParsed [] [].

(** One turn of the loop [for (const ds of datasources)]. *)
Definition parseSegment (acc : ParsedDatasource) (ds : string) : ParsedDatasource :=
  if isValidGuid ds then
    mkParsed (directIds acc ++ [normalizeItemId ds]) (localPaths acc)
  else if JsString.startsWith "local:/" ds then
    mkParsed (directIds acc) (localPaths acc ++ [JsString.substring_from 7 ds])
  else if JsString.startsWith "/sitecore/" ds then
    mkParsed (directIds acc) (localPaths acc ++ [ds])
  else if JsString.startsWith "query:" ds then acc
  else acc.

Definition parseDatasourceValue (datasource : JsValue) : ParsedDatasource :=
  match datasource with
  | JStr s =>
      if JsString.is_empty s then no_datasources
      else
        let datasources :=
          List.filter (fun ds => negb (JsString.is_empty ds))
                      (map JsString.trim (JsString.split "|" s)) in
        foldl parseSegment no_datasources datasources
  | _ => no_datasources
  end.

(** ** Context Graph Walker *)

(** The body of the [try] block of
    [extractDatasourcesFromPresentationDetails] pushes onto the two arrays
    [directIds] and [localPaths] as it goes; a throw leaves what was pushed
    so far in place. A computation of the block takes the arrays and gives
    them back with either a value or a throw. *)
Inductive Completion (A : Type) : Type :=
  | Normal (a : A)
  | Throw.
Arguments Normal {A} a.
Arguments Throw {A}.

Definition Walk (A : Type) : Type :=
  ParsedDatasource -> Completion A * ParsedDatasource.

Definition walk_ret {A} (a : A) : Walk A := fun acc => (Normal a, acc).

Definition walk_throw {A} : Walk A := fun acc => (Throw, acc).

Definition walk_bind {A B} (m : Walk A) (k : A -> Walk B) : Walk B :=
  fun acc =>
    match m acc with
    | (Normal a, acc') => k a acc'
    | (Throw, acc') => (Throw, acc')
    end.

Notation "'let*' x ':=' m 'in' k" := (walk_bind m (fun x => k))
  (at level 10, x pattern, m at level 100, k at level 200).

(** A property read inside the [try] block. *)
Definition walk_prop (v : JsValue) (k : string) : Walk JsValue :=
  match getProp v k with
  | Some x => walk_ret x
  | None => walk_throw
  end.

(** The two [forEach] calls that merge a rendering's ids and paths. *)
Definition walk_collect (parsed : ParsedDatasource) : Walk unit :=
  fun acc =>
    (Normal tt,
     mkParsed (push_all_unique (directIds acc) (directIds parsed))
              (push_all_unique (localPaths acc) (localPaths parsed))).

(** [for (const x of xs) body(x)] *)
Fixpoint walk_for (body : JsValue -> Walk unit) (xs : list JsValue) : Walk unit :=
  match xs with
  | [] => walk_ret tt
  | x :: xs' => let* _ := body x in walk_for body xs'
  end.

(** The body of both [for (const rendering of ...)] loops. *)
Definition walk_rendering (rendering : JsValue) : Walk unit :=
  let* ds1 := walk_prop rendering "dataSource" in
  let* ds2 := walk_prop rendering "datasource" in
  let datasourceValue := js_or ds1 ds2 in
  if truthy datasourceValue
  then walk_collect (parseDatasourceValue datasourceValue)
  else walk_ret tt.

(** [if (owner.renderings && Array.isArray(owner.renderings)) for (...)],
    for a device and for a placeholder alike. *)
Definition walk_renderings (owner : JsValue) : Walk unit :=
  let* rs := walk_prop owner "renderings" in
  match rs with
  | JArr renderings => walk_for walk_rendering renderings
  | _ => walk_ret tt
  end.

(** The body of [for (const device of details.devices)]. *)
Definition walk_device (device : JsValue) : Walk unit :=
  let* _ := walk_renderings device in
  let* ps := walk_prop device "placeholders" in
  match ps with
  | JArr placeholders => walk_for walk_renderings placeholders
  | _ => walk_ret tt
  end.

Record ExtractedItemInfo : Type := mkExtracted {
  itemIds : list string;
  localPathsToResolve : list string;
  currentPagePath : JsValue
}.

Definition empty_extraction : ExtractedItemInfo :=
  mkExtracted [] [] (JStr "").

(** [currentItemId && typeof currentItemId === 'string'] *)
Definition truthy_string (v : JsValue) : option string :=
  match v with
  | JStr s => if JsString.is_empty s then None else Some s
  | _ => None
  end.

(** The block that puts the current item in the list, present at both
    return sites: [if (!itemIds.includes(clean)) itemIds.unshift(clean)]. *)
Definition add_current_first (itemIds : list string) (currentItemId : string)
  : list string :=
  unshift_unique itemIds (normalizeItemId currentItemId).

Section Walker.

(** [JSON.parse]: [None] is a [SyntaxError]. *)
Variable JSON_parse : string -> option JsValue.

Definition walk_details (presentationDetails : JsValue) : Walk unit :=
  let* details :=
    match presentationDetails with
    | JStr s =>
        match JSON_parse s with
        | Some v => walk_ret v
        | None => walk_throw
        end
    | v => walk_ret v
    end in
  let* devices := walk_prop details "devices" in
  match devices with
  | JArr ds => walk_for walk_device ds
  | _ => walk_ret tt
  end.

Definition extractDatasourcesFromPresentationDetails
    (presentationDetails : JsValue) : ParsedDatasource :=
  if negb (truthy presentationDetails) then no_datasources
  else snd (walk_details presentationDetails no_datasources).

Definition extractItemIdsWithLocalPaths (pageContext : JsValue)
  : ExtractedItemInfo :=
  if negb (truthy pageContext && is_object pageContext) then empty_extraction
  else
    let context := pageContext in
    let pageInfo := field context "pageInfo" in
    let in_pageInfo := truthy pageInfo && is_object pageInfo in
    let currentPagePath0 :=
      if in_pageInfo then js_or (field pageInfo "path") (JStr "") else JStr "" in
    let currentItemId0 :=
      if in_pageInfo
      then js_or (js_or (field pageInfo "itemId") (field pageInfo "id"))
                 (field pageInfo "pageId")
      else JNull in
    let found :=
      if in_pageInfo && truthy (field pageInfo "presentationDetails")
      then extractDatasourcesFromPresentationDetails
             (field pageInfo "presentationDetails")
      else no_datasources in
    let itemIds0 := push_all_unique [] (directIds found) in
    if negb (length (localPaths found) =? 0)%nat then
      (* the return inside the pageInfo branch *)
      mkExtracted
        (match truthy_string currentItemId0 with
         | Some s => add_current_first itemIds0 s
         | None => itemIds0
         end)
        (localPaths found)
        currentPagePath0
    else
      let siteInfo := field context "siteInfo" in
      let currentItemId1 :=
        if negb (truthy currentItemId0) && truthy siteInfo && is_object siteInfo
        then js_or (field siteInfo "itemId") (field siteInfo "id")
        else currentItemId0 in
      let currentItemId2 :=
        if negb (truthy currentItemId1)
        then js_or (js_or (field context "itemId") (field context "id"))
                   (field context "pageId")
        else currentItemId1 in
      match truthy_string currentItemId2 with
      | Some s => mkExtracted (add_current_first itemIds0 s) [] currentPagePath0
      | None => empty_extraction
      end.

Definition extractItemIds (pageContext : JsValue) : list string :=
  itemIds (extractItemIdsWithLocalPaths pageContext).

End Walker.

(** ** Response envelopes *)

(** A thrown or reported error value; [String(e)] is [name: message].
    Every error value of this program is an object, hence truthy. *)
Record JsError : Type := mkError {
  error_name : string;
  error_message : string
}.

Definition error_to_string (e : JsError) : string :=
  error_name e +:+ ": " +:+ error_message e.

(** [new Error(message)] *)
Definition new_Error (message : string) : JsError := mkError "Error" message.

(** An entry of a GraphQL [errors] array: an object with a [message]
    (given by its [String(message)]), or any other value (given by its
    [String(error)]). *)
Inductive GraphQLError : Type :=
  | ErrorWithMessage (message : string)
  | ErrorOther (rendered : string).

(** The inner object of a response: [{ data?, errors? }]. The dictionary
    [data] maps an alias to its payload, [Some None] for an alias that came
    back as [null]. *)
Record ResponseData (P : Type) : Type := mkResponseData {
  rd_data : option (gmap string (option P));
  rd_errors : option (list GraphQLError)
}.
Arguments mkResponseData {P} _ _.
Arguments rd_data {P} _.
Arguments rd_errors {P} _.

(** [ItemQueryResult]: [{ data?, error? }]. *)
Record ItemQueryResult (P : Type) : Type := mkResult {
  data : option (ResponseData P);
  error : option JsError
}.
Arguments mkResult {P} _ _.
Arguments data {P} _.
Arguments error {P} _.

(** [{ data: { data: {} } }] *)
Definition empty_envelope {P : Type} : ItemQueryResult P :=
  mkResult (Some (mkResponseData (Some ∅) None)) None.

(** [{ error }] *)
Definition error_envelope {P : Type} (e : JsError) : ItemQueryResult P :=
  mkResult None (Some e).

(** The payload types are declared in [types/itemInformation.ts]; their
    fields are the ones the queries select and [processItemData] reads.
    [template] and [language] hold the nested [name]. *)
Module AuthoringItemResponse.
Record t : Type := mk {
  itemId : string;
  name : string;
  path : string;
  version : Z;
  template : option string;
  language : option string
}.
End AuthoringItemResponse.

Module LiveItemResponse.
Record t : Type := mk {
  id : string;
  name : string;
  version : Z;
  language : option string
}.
End LiveItemResponse.

Inductive ItemType : Type := current | datasource | link | reference.

Module ProcessedItemInfo.
Record t : Type := mk {
  id : string;
  name : string;
  path : string;
  latestVersion : Z;
  publishedVersion : option Z;
  isPublished : bool;
  isOutdated : bool;
  versionDifference : Z;
  itemType : ItemType;
  template : option string;
  language : string
}.
End ProcessedItemInfo.

(** ** Response Reconciler *)

Record Validation (P : Type) : Type := mkValidation {
  isValid : bool;
  errors : list string;
  validated : option (gmap string (option P))
}.
Arguments mkValidation {P} _ _ _.
Arguments isValid {P} _.
Arguments errors {P} _.
Arguments validated {P} _.

Definition graphql_error_line (e : GraphQLError) : string :=
  match e with
  | ErrorWithMessage m => "GraphQL error: " +:+ m
  | ErrorOther r => "GraphQL error: " +:+ r
  end.

Definition validateResponse {P : Type} (response : ItemQueryResult P)
  : Validation P :=
  match error response with
  | Some e =>
      mkValidation false ["Response error: " +:+ error_to_string e] None
  | None =>
      match data response ≫= rd_data with
      | None => mkValidation false ["No data in response"] None
      | Some d =>
          let errs :=
            match data response ≫= rd_errors with
            | Some es => map graphql_error_line es
            | None => []
            end in
          mkValidation (length errs =? 0)%nat errs (Some d)
      end
  end.

(** The alias [`item${index}`]. *)
Definition item_alias (index : nat) : string := "item" +:+ pretty index.

(** [validation.data?.[alias]]: nothing for a missing dictionary, a
    missing alias and a [null] slot alike. *)
Definition lookup_payload {P : Type} (v : Validation P) (alias : string)
  : option P :=
  d ← validated v; mjoin (d !! alias).

(** [x || d] on numbers. *)
Definition num_or (x : option Z) (d : Z) : Z :=
  match x with
  | Some n => if (n =? 0)%Z then d else n
  | None => d
  end.

(** [x || null] on numbers. *)
Definition num_or_null (x : option Z) : option Z :=
  match x with
  | Some n => if (n =? 0)%Z then None else Some n
  | None => None
  end.

(** A string operand of [||]: nothing when it is [undefined] or empty. *)
Definition truthy_str (x : option string) : option string :=
  match x with
  | Some s => if JsString.is_empty s then None else Some s
  | None => None
  end.

(** [a || d] on strings. *)
Definition str_or (a : option string) (d : string) : string :=
  default d (truthy_str a).

(** [a || b || d] on strings. *)
Definition str_or2 (a b : option string) (d : string) : string :=
  match truthy_str a with
  | Some s => s
  | None => str_or b d
  end.

Definition determineItemType (itemId : string) (currentItemId : option string)
  : ItemType :=
  if bool_decide (Some itemId = currentItemId) then current else reference.

(** The callback of [itemIds.forEach((itemId, index) => ...)]. *)
Definition processItem
    (authoringValidation : Validation AuthoringItemResponse.t)
    (liveValidation : Validation LiveItemResponse.t)
    (currentItemId : option string)
    (index : nat) (itemId : string) : ProcessedItemInfo.t :=
  let authoringItem := lookup_payload authoringValidation (item_alias index) in
  let liveItem := lookup_payload liveValidation (item_alias index) in
  let latestVersion := num_or (AuthoringItemResponse.version <$> authoringItem) 0 in
  let publishedVersion := num_or_null (LiveItemResponse.version <$> liveItem) in
  let isPublished := bool_decide (publishedVersion ≠ None) in
  let isOutdated :=
    match publishedVersion with
    | Some pv => isPublished && (pv <? latestVersion)%Z
    | None => false
    end in
  {| ProcessedItemInfo.id := itemId;
     ProcessedItemInfo.name :=
       str_or2 (AuthoringItemResponse.name <$> authoringItem)
               (LiveItemResponse.name <$> liveItem) "Unknown Item";
     ProcessedItemInfo.path :=
       str_or (AuthoringItemResponse.path <$> authoringItem) "";
     ProcessedItemInfo.latestVersion := latestVersion;
     ProcessedItemInfo.publishedVersion := publishedVersion;
     ProcessedItemInfo.isPublished := isPublished;
     ProcessedItemInfo.isOutdated := isOutdated;
     ProcessedItemInfo.versionDifference :=
       match publishedVersion with
       | Some pv => if isPublished then (latestVersion - pv)%Z else latestVersion
       | None => latestVersion
       end;
     ProcessedItemInfo.itemType := determineItemType itemId currentItemId;
     ProcessedItemInfo.template :=
       authoringItem ≫= AuthoringItemResponse.template;
     ProcessedItemInfo.language :=
       str_or2 (authoringItem ≫= AuthoringItemResponse.language)
               (liveItem ≫= LiveItemResponse.language) "en" |}.

Definition processItemData
    (authoringResult : ItemQueryResult AuthoringItemResponse.t)
    (liveResult : ItemQueryResult LiveItemResponse.t)
    (itemIds : list string) (currentItemId : option string)
  : list ProcessedItemInfo.t :=
  let authoringValidation := validateResponse authoringResult in
  let liveValidation := validateResponse liveResult in
  imap (processItem authoringValidation liveValidation currentItemId) itemIds.

(** ** Report Assembler: summary counts *)

Record ItemInformationSummary : Type := mkSummary {
  totalItems : nat;
  publishedItems : nat;
  unpublishedItems : nat;
  outdatedItems : nat
}.

Definition generateSummary (items : list ProcessedItemInfo.t)
  : ItemInformationSummary :=
  {| totalItems := length items;
     publishedItems := length (List.filter ProcessedItemInfo.isPublished items);
     unpublishedItems :=
       length (List.filter (fun item => negb (ProcessedItemInfo.isPublished item)) items);
     outdatedItems := length (List.filter ProcessedItemInfo.isOutdated items) |}.

(** ** Promises and the transport *)

(** What awaiting a promise gives: its value, or the rejection thrown at
    the [await]. An [async] function that throws returns a rejected
    promise. *)
Inductive Outcome (A : Type) : Type :=
  | Resolved (a : A)
  | Rejected (e : JsError).
Arguments Resolved {A} a.
Arguments Rejected {A} e.

(** The SDK client: [client.mutate(key, { params: { query: {
    sitecoreContextId }, body: { query } } })]. *)
Record ClientSDK (P : Type) : Type := mkClient {
  mutate : string -> string -> string -> Outcome (ItemQueryResult P)
}.
Arguments mkClient {P} _.
Arguments mutate {P} _ _ _ _.

(** The [Response] of [fetch]: [ok], [status] and the outcome of
    [response.json()]. *)
Record FetchResponse (P : Type) : Type := mkFetchResponse {
  ok : bool;
  status : nat;
  json : Outcome (ResponseData P)
}.
Arguments mkFetchResponse {P} _ _ _.
Arguments ok {P} _.
Arguments status {P} _.
Arguments json {P} _.

Definition LIVE_ENDPOINT : string := "https://edge.sitecorecloud.io/api/graphql/v1".

(** *** Query text *)

Definition LF : string := String (ascii_of_nat 10) EmptyString.

Definition quoted (s : string) : string :=
  String (ascii_of_nat 34) EmptyString +:+ s +:+ String (ascii_of_nat 34) EmptyString.

Fixpoint spaces (n : nat) : string :=
  match n with
  | O => EmptyString
  | S n' => String " " (spaces n')
  end.

(** A line of a template literal: the line break, the indentation and the
    text. *)
Definition ln (indent : nat) (text : string) : string :=
  LF +:+ spaces indent +:+ text.

(** [xs.join('')] *)
Definition join_strings (xs : list string) : string :=
  foldr String.append EmptyString xs.

Definition authoring_item_query (index : nat) (id : string) : string :=
  ln 8 ("item" +:+ pretty index +:+ ": item(where: {") +:+
  ln 10 ("database: " +:+ quoted "master") +:+
  ln 10 ("itemId: " +:+ quoted id) +:+
  ln 10 ("language: " +:+ quoted "en") +:+
  ln 8 "}) {" +:+
  ln 10 "itemId" +:+
  ln 10 "name" +:+
  ln 10 "path" +:+
  ln 10 "version" +:+
  ln 10 "template {" +:+
  ln 12 "name" +:+
  ln 10 "}" +:+
  ln 10 "language {" +:+
  ln 12 "name" +:+
  ln 10 "}" +:+
  ln 10 "fields {" +:+
  ln 12 "nodes {" +:+
  ln 14 "name" +:+
  ln 14 "value" +:+
  ln 12 "}" +:+
  ln 10 "}" +:+
  ln 8 "}" +:+
  ln 6 "".

Definition authoring_query (itemIds : list string) : string :=
  ln 4 "query GetAuthoringItems {" +:+
  ln 6 (join_strings (imap authoring_item_query itemIds)) +:+
  ln 4 "}" +:+
  ln 2 "".

Definition live_item_query (index : nat) (id : string) : string :=
  ln 8 ("item" +:+ pretty index +:+ ": item(path: "
        +:+ quoted ("{" +:+ formatGuidForLive id +:+ "}")
        +:+ ", language: " +:+ quoted "en" +:+ ") {") +:+
  ln 10 "id" +:+
  ln 10 "name" +:+
  ln 10 "version" +:+
  ln 10 "language {" +:+
  ln 12 "name" +:+
  ln 10 "}" +:+
  ln 8 "}" +:+
  ln 6 "".

Definition live_query (itemIds : list string) : string :=
  ln 4 "query GetLiveItems {" +:+
  ln 6 (join_strings (imap live_item_query itemIds)) +:+
  ln 4 "}" +:+
  ln 2 "".

(** [s.replace(pat, '')] with a string pattern: the first occurrence
    only, wherever it stands. *)
Fixpoint remove_first (pat s : string) : string :=
  if String.prefix pat s then JsString.substring_from (String.length pat) s
  else match s with
       | EmptyString => EmptyString
       | String c s' => String c (remove_first pat s')
       end.

Definition full_path (basePath localPath : string) : string :=
  let cleanPath := remove_first "Data/" localPath in
  basePath +:+ "/Data/" +:+ cleanPath.

Definition resolve_path_query (fullPaths : list string) (index : nat) : string :=
  ln 8 ("path" +:+ pretty index +:+ ": item(where: {") +:+
  ln 10 ("database: " +:+ quoted "master") +:+
  ln 10 ("path: " +:+ quoted (default "undefined" (fullPaths !! index))) +:+
  ln 10 ("language: " +:+ quoted "en") +:+
  ln 8 "}) {" +:+
  ln 10 "itemId" +:+
  ln 10 "name" +:+
  ln 10 "path" +:+
  ln 8 "}" +:+
  ln 6 "".

Definition resolve_query (localPaths fullPaths : list string) : string :=
  ln 4 "query ResolveLocalDatasources {" +:+
  ln 6 (join_strings (imap (fun index _ => resolve_path_query fullPaths index) localPaths)) +:+
  ln 4 "}" +:+
  ln 2 "".

(** ** Dual-Endpoint Fetcher *)

Definition getItemsFromAuthoring {P : Type}
    (client : option (ClientSDK P)) (itemIds : list string)
    (sitecoreContextId : option string)
  : Outcome (ItemQueryResult P) :=
  match client, itemIds with
  | None, _ | _, [] => Resolved empty_envelope
  | Some c, _ :: _ =>
      match truthy_str sitecoreContextId with
      | None =>
          Rejected (new_Error "sitecoreContextId is required for authoring GraphQL queries")
      | Some ctx =>
          let query := authoring_query itemIds in
          match mutate c "xmc.authoring.graphql" ctx (JsString.trim query) with
          | Resolved result => Resolved result
          | Rejected e => Resolved (error_envelope e)
          end
      end
  end.

Section LiveFetcher.

Context {P : Type}.

(** [fetch(url, { method, headers, body })] *)
Variable fetch :
  string -> string -> list (string * string) -> string -> Outcome (FetchResponse P).

(** [JSON.stringify({ query })] *)
Variable JSON_stringify_query : string -> string.

(** The API key constant sent as [sc_apikey]. *)
Variable LIVE_TOKEN : string.

Definition getItemsFromLive
    (_client : option (ClientSDK P)) (itemIds : list string)
    (_sitecoreContextId : option string)
  : Outcome (ItemQueryResult P) :=
  match itemIds with
  | [] => Resolved empty_envelope
  | _ :: _ =>
      let query := live_query itemIds in
      match fetch LIVE_ENDPOINT "POST"
                  [("Content-Type", "application/json"); ("sc_apikey", LIVE_TOKEN)]
                  (JSON_stringify_query (JsString.trim query)) with
      | Rejected e => Resolved (error_envelope e)
      | Resolved response =>
          if negb (ok response) then
            Resolved (error_envelope
                        (new_Error ("HTTP error! status: " +:+ pretty (status response))))
          else
            match json response with
            | Rejected e => Resolved (error_envelope e)
            | Resolved result => Resolved (mkResult (Some result) None)
            end
      end
  end.

End LiveFetcher.

(** ** Local Path Resolver *)

(** The payload selected by the resolution query and read by the resolver:
    [{ itemId?: string; name?: string }]. *)
Record ResolvedItem : Type := mkResolvedItem {
  resolved_itemId : option string;
  resolved_name : option string
}.

(** The alias [`path${index}`]. *)
Definition path_alias (index : nat) : string := "path" +:+ pretty index.

(** The callback of [localPaths.forEach((localPath, index) => ...)] on the
    success path, acting on [result]. *)
Definition resolve_slot (responseData : gmap string (option ResolvedItem))
    (result : gmap string (option string)) (entry : nat * string)
  : gmap string (option string) :=
  let '(index, localPath) := entry in
  match truthy_str (mjoin (responseData !! path_alias index) ≫= resolved_itemId) with
  | Some itemId =>
      <[localPath := Some (JsString.toUpperCase (strip_braces itemId))]> result
  | None => <[localPath := None]> result
  end.

Definition resolveLocalDatasourcePaths
    (client : option (ClientSDK ResolvedItem)) (localPaths : list string)
    (basePath : string) (sitecoreContextId : string)
  : Outcome (gmap string (option string)) :=
  match client, localPaths with
  | None, _ | _, [] => Resolved ∅
  | Some c, _ :: _ =>
      let fullPaths := map (full_path basePath) localPaths in
      let query := resolve_query localPaths fullPaths in
      match mutate c "xmc.authoring.graphql" sitecoreContextId (JsString.trim query) with
      | Resolved response =>
          match data response ≫= rd_data with
          | Some responseData =>
              Resolved (foldl (resolve_slot responseData) ∅ (imap pair localPaths))
          | None => Resolved ∅
          end
      | Rejected _ =>
          Resolved (foldl (fun result path => <[path := None]> result) ∅ localPaths)
      end
  end.

(** ** Report Assembler: the response *)

(** The [currentItem] of a response: an item of the list, or the literal
    [{ id: 'unknown', name: 'No Current Item', path: '', latestVersion: 0,
    publishedVersion: null, isPublished: false, isOutdated: false,
    versionDifference: 0, itemType: 'current' }], an object without
    [template] and without [language]. *)
Inductive CurrentItem : Type :=
  | ActualItem (item : ProcessedItemInfo.t)
  | NoCurrentItem.

Definition current_item_id (c : CurrentItem) : string :=
  match c with
  | ActualItem item => ProcessedItemInfo.id item
  | NoCurrentItem => "unknown"
  end.

Record ItemInformationResponse : Type := mkResponse {
  currentItem : CurrentItem;
  referencedItems : list ProcessedItemInfo.t;
  summary : ItemInformationSummary
}.

(** [item.itemType === 'current'] *)
Definition is_current (item : ProcessedItemInfo.t) : bool :=
  match ProcessedItemInfo.itemType item with
  | current => true
  | _ => false
  end.

Definition createItemInformationResponse (items : list ProcessedItemInfo.t)
  : ItemInformationResponse :=
  let currentItem := List.find is_current items in
  let referencedItems := List.filter (fun item => negb (is_current item)) items in
  let finalCurrentItem :=
    match currentItem with
    | Some c => Some c
    | None => head items
    end in
  let finalReferencedItems :=
    match currentItem with
    | Some _ => referencedItems
    | None => tail items
    end in
  {| currentItem :=
       match finalCurrentItem with
       | Some c => ActualItem c
       | None => NoCurrentItem
       end;
     referencedItems := finalReferencedItems;
     summary := generateSummary items |}.

(** ** Preview endpoint and response check of the fetcher *)

Definition preview_item_query (index : nat) (id : string) : string :=
  ln 8 ("item" +:+ pretty index +:+ ": item(path: " +:+ quoted id
        +:+ ", language: " +:+ quoted "en" +:+ ") {") +:+
  ln 10 "id" +:+
  ln 10 "name" +:+
  ln 10 "version" +:+
  ln 10 "language {" +:+
  ln 12 "name" +:+
  ln 10 "}" +:+
  ln 8 "}" +:+
  ln 6 "".

Definition preview_query (itemIds : list string) : string :=
  ln 4 "query GetPreviewItems {" +:+
  ln 6 (join_strings (imap preview_item_query itemIds)) +:+
  ln 4 "}" +:+
  ln 2 "".

Definition getItemsFromPreview {P : Type}
    (client : option (ClientSDK P)) (itemIds : list string)
    (sitecoreContextId : option string)
  : Outcome (ItemQueryResult P) :=
  match client, itemIds with
  | None, _ | _, [] => Resolved empty_envelope
  | Some c, _ :: _ =>
      match truthy_str sitecoreContextId with
      | None =>
          Rejected (new_Error "sitecoreContextId is required for preview GraphQL queries")
      | Some ctx =>
          let query := preview_query itemIds in
          match mutate c "xmc.preview.graphql" ctx (JsString.trim query) with
          | Resolved result => Resolved result
          | Rejected e => Resolved (error_envelope e)
          end
      end
  end.

Record GraphQLValidation : Type := mkGraphQLValidation {
  response_isValid : bool;
  response_errors : list string
}.

(** [validateGraphQLResponse] of [graphqlQueries.ts]; [None] is a [null] or
    [undefined] response. *)
Definition validateGraphQLResponse {P : Type} (response : option (ItemQueryResult P))
  : GraphQLValidation :=
  match response with
  | None => mkGraphQLValidation false ["Response is null or undefined"]
  | Some r =>
      let errors1 :=
        match error r with
        | Some e => ["Response error: " +:+ error_to_string e]
        | None => []
        end in
      let errors2 :=
        match data r with
        | None => ["No data in response"]
        | Some rd =>
            match rd_data rd with
            | None => ["No nested data in response.data"]
            | Some _ => []
            end
        end in
      let errors := (errors1 ++ errors2)%list in
      mkGraphQLValidation (length errors =? 0)%nat errors
  end.

(** ** References in item fields *)

(** An entry of [item.fields.nodes]. *)
Record FieldNode : Type := mkField {
  field_name : string;
  field_value : string
}.

(** An authoring payload together with its [fields?.nodes], the one part
    of it that [extractDatasourceReferences] reads. *)
Record AuthoringItemWithFields : Type := mkItemWithFields {
  item_payload : AuthoringItemResponse.t;
  item_nodes : option (list FieldNode)
}.

(** One attempt of
    [/\{?[0-9A-Fa-f]{8}-[0-9A-Fa-f]{4}-[0-9A-Fa-f]{4}-[0-9A-Fa-f]{4}-[0-9A-Fa-f]{12}\}?/]
    at the head of [s]: the text that follows the match. *)
Definition match_guid_rest (s : string) : option string :=
  s1 ← match_hex 8 (match_opt_char "{" s);
  s2 ← match_char "-" s1;
  s3 ← match_hex 4 s2;
  s4 ← match_char "-" s3;
  s5 ← match_hex 4 s4;
  s6 ← match_char "-" s5;
  s7 ← match_hex 4 s6;
  s8 ← match_char "-" s7;
  s9 ← match_hex 12 s8;
  Some (match_opt_char "}" s9).

(** The matched text itself. *)
Definition match_guid_here (s : string) : option string :=
  rest ← match_guid_rest s;
  Some (String.substring 0 (String.length s - String.length rest) s).

(** [s.match(regex)] with the [g] flag: the matches from left to right,
    the search resuming after each match; [skip] counts the characters of
    the last match still to pass. No match gives the empty list ([null]). *)
Fixpoint scan_guids (skip : nat) (s : string) : list string :=
  match s with
  | EmptyString => []
  | String _ s' =>
      match skip with
      | S k => scan_guids k s'
      | O =>
          match match_guid_here s with
          | Some m => m :: scan_guids (String.length m - 1) s'
          | None => scan_guids 0 s'
          end
      end
  end.

(** [match.replace(/[{}]/g, '').toUpperCase()] *)
Definition clean_reference (m : string) : string :=
  JsString.toUpperCase (strip_braces m).

Definition extractDatasourceReferences (item : AuthoringItemWithFields)
  : list string :=
  match item_nodes item with
  | None => []
  | Some nodes =>
      foldl (fun references field =>
               push_all_unique references
                 (map clean_reference (scan_guids 0 (field_value field))))
            [] nodes
  end.

(** [new Set()], [add] in turn, [Array.from]: first occurrences, in order
    of insertion. *)
Definition extractAllRelatedItems (JSON_parse : string -> option JsValue)
    (pageContext : JsValue) (authoringItem : option AuthoringItemWithFields)
  : list string :=
  let contextIds := extractItemIds JSON_parse pageContext in
  let itemIds := push_all_unique [] contextIds in
  match authoringItem with
  | Some item => push_all_unique itemIds (extractDatasourceReferences item)
  | None => itemIds
  end.

(** ** Status badge and status summary of the table *)

Inductive StatusIcon : Type := CheckCircleIcon | WarningIcon | XCircleIcon | TimeIcon.

Module StatusConfig.
Record t : Type := mk {
  status : string;
  colorScheme : string;
  icon : StatusIcon;
  description : string
}.
End StatusConfig.

(** [`${item.publishedVersion}`] *)
Definition version_text (v : option Z) : string :=
  match v with
  | Some n => pretty n
  | None => "null"
  end.

Definition getStatusConfig (item : ProcessedItemInfo.t) : StatusConfig.t :=
  if negb (ProcessedItemInfo.isPublished item) then
    StatusConfig.mk "Not Published" "red" XCircleIcon
      "This item has not been published to the live environment"
  else if ProcessedItemInfo.isOutdated item then
    StatusConfig.mk "Outdated" "orange" WarningIcon
      ("Published version (" +:+ version_text (ProcessedItemInfo.publishedVersion item)
       +:+ ") is behind latest version ("
       +:+ pretty (ProcessedItemInfo.latestVersion item) +:+ ")")
  else
    StatusConfig.mk "Up-to-date" "green" CheckCircleIcon
      ("Published version (" +:+ version_text (ProcessedItemInfo.publishedVersion item)
       +:+ ") matches latest version ("
       +:+ pretty (ProcessedItemInfo.latestVersion item) +:+ ")").

(** The [summary] object of [PublishingStatusSummary]. *)
Record StatusSummary : Type := mkStatusSummary {
  total : nat;
  published : nat;
  unpublished : nat;
  outdated : nat;
  upToDate : nat
}.

Definition status_summary (items : list ProcessedItemInfo.t) : StatusSummary :=
  {| total := length items;
     published := length (List.filter ProcessedItemInfo.isPublished items);
     unpublished :=
       length (List.filter (fun item => negb (ProcessedItemInfo.isPublished item)) items);
     outdated := length (List.filter ProcessedItemInfo.isOutdated items);
     upToDate :=
       length (List.filter
                 (fun item => ProcessedItemInfo.isPublished item
                              && negb (ProcessedItemInfo.isOutdated item)) items) |}.

(** ** The first version of [extractItemIds]

    The second document of [utils/dataProcessing.ts]: the current item
    only, as the context spells it. *)
Definition extractItemIds_v1 (pageContext : JsValue) : list string :=
  if negb (truthy pageContext && is_object pageContext) then []
  else
    let context := pageContext in
    let pageInfo := field context "pageInfo" in
    let currentItemId0 :=
      if truthy pageInfo && is_object pageInfo
      then js_or (js_or (field pageInfo "itemId") (field pageInfo "id"))
                 (field pageInfo "pageId")
      else JUndefined in
    let siteInfo := field context "siteInfo" in
    let currentItemId1 :=
      if negb (truthy currentItemId0) && truthy siteInfo && is_object siteInfo
      then js_or (field siteInfo "itemId") (field siteInfo "id")
      else currentItemId0 in
    let currentItemId2 :=
      if negb (truthy currentItemId1)
      then js_or (js_or (field context "itemId") (field context "id"))
                 (field context "pageId")
      else currentItemId1 in
    match truthy_string currentItemId2 with
    | Some s => [s]
    | None => []
    end.

(** ** Item type badges ([utils/itemTypeUtils.ts]) *)

Definition getItemTypeColor (itemType : ItemType) : string :=
  match itemType with
  | current => "blue"
  | datasource => "purple"
  | link => "cyan"
  | reference => "gray"
  end.

Definition getItemTypeLabel (type : ItemType) : string :=
  match type with
  | current => "Current Item"
  | datasource => "Datasource"
  | link => "Link"
  | reference => "Reference"
  end.

(** ** Scenarios

    Concrete envelopes and contexts on which the properties below are
    evaluated. *)

Definition authoring_success (d : gmap string (option AuthoringItemResponse.t))
  : ItemQueryResult AuthoringItemResponse.t :=
  mkResult (Some (mkResponseData (Some d) None)) None.

Definition live_success (d : gmap string (option LiveItemResponse.t))
  : ItemQueryResult LiveItemResponse.t :=
  mkResult (Some (mkResponseData (Some d) None)) None.

Definition home_authoring (name : string) (version : Z) : AuthoringItemResponse.t :=
  AuthoringItemResponse.mk "5ed521788f0649be9d4cf191e650189e" name
    "/sitecore/content/Home" version (Some "Page") (Some "en").

Definition home_live (version : Z) : LiveItemResponse.t :=
  LiveItemResponse.mk "5ED521788F0649BE9D4CF191E650189E" "Home" version (Some "en").

Definition home_id : string := "5ED521788F0649BE9D4CF191E650189E".

(** Authoring at version 8, live at version 5. *)
Definition outdated_authoring : ItemQueryResult AuthoringItemResponse.t :=
  authoring_success {[ "item0" := Some (home_authoring "Home" 8) ]}.

Definition outdated_live : ItemQueryResult LiveItemResponse.t :=
  live_success {[ "item0" := Some (home_live 5) ]}.

(** A live payload whose version is 0. *)
Definition zero_version_live : ItemQueryResult LiveItemResponse.t :=
  live_success {[ "item0" := Some (home_live 0) ]}.

(** An authoring payload whose name is the empty string. *)
Definition unnamed_authoring : ItemQueryResult AuthoringItemResponse.t :=
  authoring_success {[ "item0" := Some (home_authoring "" 3) ]}.

Definition fetch_failed : JsError := mkError "TypeError" "Failed to fetch".

(** An object literal. *)
Definition obj (fields : list (string * JsValue)) : JsValue :=
  JObj (list_to_map fields).

(** [{ devices: [{ renderings: [{ dataSource: v }, ...] }] }] *)
Definition presentation_of (datasources : list string) : JsValue :=
  obj [("devices",
        JArr [obj [("renderings",
                    JArr (map (fun v => obj [("dataSource", JStr v)]) datasources))]])].

(** A page context without any identifier, whose only rendering has a
    direct identifier and a symbolic local path as datasources. *)
Definition anchorless_local_context : JsValue :=
  obj [("pageInfo",
        obj [("path", JStr "/sitecore/content/Home");
             ("presentationDetails",
              presentation_of
                ["{9C8262E4-6456-4946-B04E-D5873874615E}|local:/Data/Text 1"])])].

(** A page context without any identifier, whose only rendering has a
    direct identifier as datasource. *)
Definition anchorless_direct_context : JsValue :=
  obj [("pageInfo",
        obj [("path", JStr "/sitecore/content/Home");
             ("presentationDetails",
              presentation_of ["{9C8262E4-6456-4946-B04E-D5873874615E}"])])].

(** A page whose second rendering has the page item itself as datasource. *)
Definition self_reference_context : JsValue :=
  obj [("pageInfo",
        obj [("id", JStr "{5ED52178-8F06-49BE-9D4C-F191E650189E}");
             ("path", JStr "/sitecore/content/Home");
             ("presentationDetails",
              presentation_of ["{9C8262E4-6456-4946-B04E-D5873874615E}";
                               "{5ED52178-8F06-49BE-9D4C-F191E650189E}"])])].

(** A page identified under [siteInfo] only, with a local datasource. *)
Definition site_anchor_local_context : JsValue :=
  obj [("pageInfo",
        obj [("path", JStr "/sitecore/content/Home");
             ("presentationDetails", presentation_of ["local:/Data/Text 1"])]);
       ("siteInfo", obj [("id", JStr "{5ED52178-8F06-49BE-9D4C-F191E650189E}")])].

(** A page with its identifier and nothing else. *)
Definition plain_context : JsValue :=
  obj [("pageInfo", obj [("id", JStr "{5ED52178-8F06-49BE-9D4C-F191E650189E}")])].

(** A parser that rejects every text. *)
Definition no_json : string -> option JsValue := fun _ => None.

(** A client whose every call resolves to the empty success envelope. *)
Definition idle_client {P : Type} : ClientSDK P :=
  mkClient (fun _ _ _ => Resolved empty_envelope).

(** A client whose every call is rejected. *)
Definition failing_client {P : Type} : ClientSDK P :=
  mkClient (fun _ _ _ => Rejected fetch_failed).

(** A client that resolves the alias [path0] to an item whose wire
    identifier is [itemId]. *)
Definition resolving_client (itemId : string) : ClientSDK ResolvedItem :=
  mkClient (fun _ _ _ =>
    Resolved (mkResult
      (Some (mkResponseData
               (Some {[ "path0" := Some (mkResolvedItem (Some itemId) (Some "Text 1")) ]})
               None))
      None)).

(** A [fetch] that fails at the network. *)
Definition offline_fetch {P : Type}
  : string -> string -> list (string * string) -> string -> Outcome (FetchResponse P) :=
  fun _ _ _ _ => Rejected fetch_failed.

(** The current item identifier as the fallback chain of
    [extractItemIdsWithLocalPaths] names it: [pageInfo], then [siteInfo],
    then the top level of the context. *)
Definition current_item_candidate (pageContext : JsValue) : JsValue :=
  let pageInfo := field pageContext "pageInfo" in
  let siteInfo := field pageContext "siteInfo" in
  let from_pageInfo :=
    if truthy pageInfo && is_object pageInfo
    then js_or (js_or (field pageInfo "itemId") (field pageInfo "id"))
               (field pageInfo "pageId")
    else JNull in
  let from_siteInfo :=
    if negb (truthy from_pageInfo) && truthy siteInfo && is_object siteInfo
    then js_or (field siteInfo "itemId") (field siteInfo "id")
    else from_pageInfo in
  if negb (truthy from_siteInfo)
  then js_or (js_or (field pageContext "itemId") (field pageContext "id"))
             (field pageContext "pageId")
  else from_siteInfo.

(** What the walk of [pageInfo.presentationDetails] collects. *)
Definition collected (JSON_parse : string -> option JsValue) (pageContext : JsValue)
  : ParsedDatasource :=
  let pageInfo := field pageContext "pageInfo" in
  if truthy pageInfo && is_object pageInfo
     && truthy (field pageInfo "presentationDetails")
  then extractDatasourcesFromPresentationDetails JSON_parse
         (field pageInfo "presentationDetails")
  else no_datasources.


Definition no_hyphen (s : string) : bool :=
  JsString.all_chars (fun c => negb (Ascii.eqb c "-")) s.

(** The page item, outdated, and a second item known to neither endpoint. *)
Definition sample_items : list ProcessedItemInfo.t :=
  processItemData outdated_authoring outdated_live
    [home_id; "9C8262E464564946B04ED5873874615E"] (Some home_id).

(** The same identifier twice, as the current item. *)
Definition doubled_items : list ProcessedItemInfo.t :=
  processItemData outdated_authoring outdated_live [home_id; home_id] (Some home_id).

(** The characters of a canonical identifier: [0-9A-F]. *)
Definition is_upper_hex (c : ascii) : bool :=
  let n := nat_of_ascii c in
  ((48 <=? n)%nat && (n <=? 57)%nat) || ((65 <=? n)%nat && (n <=? 70)%nat).

(** A canonical identifier: 32 characters, each of [0-9A-F]. *)
Definition is_canonical (s : string) : bool :=
  (String.length s =? 32)%nat && JsString.all_chars is_upper_hex s.

(** [n] hexadecimal digits. *)
Definition hex_block (n : nat) (h : string) : Prop :=
  String.length h = n /\ JsString.all_chars is_hex h = true.

(** The five blocks of a GUID with their hyphens. *)
Definition hyphenated (h1 h2 h3 h4 h5 : string) : string :=
  h1 +:+ "-" +:+ h2 +:+ "-" +:+ h3 +:+ "-" +:+ h4 +:+ "-" +:+ h5.

(** A computation of the walk keeps an invariant of the two arrays,
    whether it completes or throws. *)
Definition walk_keeps (I : ParsedDatasource -> Prop) {A : Type} (m : Walk A) : Prop :=
  forall acc, I acc -> I (snd (m acc)).

(** The two arrays hold nothing twice, and the identifiers are canonical. *)
Definition well_collected (acc : ParsedDatasource) : Prop :=
  NoDup (directIds acc) /\ NoDup (localPaths acc)
  /\ Forall (fun id => is_canonical id = true) (directIds acc).

(** [s.includes(pat)] *)
Fixpoint contains (pat s : string) : bool :=
  String.prefix pat s
  || match s with
     | EmptyString => false
     | String _ s' => contains pat s'
     end.

(** The number of records whose badge reads [label]. *)
Definition count_status (label : string) (items : list ProcessedItemInfo.t) : nat :=
  length (List.filter
            (fun item => String.eqb (StatusConfig.status (getStatusConfig item)) label)
            items).

(** * Properties *)

(** ** String primitives *)

Section StringFacts.

Import JsString.

Lemma append_cons c s1 s2 : String c s1 +:+ s2 = String c (s1 +:+ s2).
Proof. reflexivity. Qed.

Lemma append_nil_l s : EmptyString +:+ s = s.
Proof. reflexivity. Qed.

Lemma filter_chars_app keep s1 s2 :
  filter_chars keep (s1 +:+ s2) = filter_chars keep s1 +:+ filter_chars keep s2.
Proof.
  induction s1 as [|c s1 IH]; simpl; [reflexivity|].
  destruct (keep c); simpl; now rewrite IH.
Qed.

Lemma map_chars_app f s1 s2 :
  map_chars f (s1 +:+ s2) = map_chars f s1 +:+ map_chars f s2.
Proof. induction s1 as [|c s1 IH]; simpl; [reflexivity | now rewrite IH]. Qed.

Lemma upper_char_idemp c : upper_char (upper_char c) = upper_char c.
Proof. destruct c as [[] [] [] [] [] [] [] []]; reflexivity. Qed.

Lemma upper_char_class c :
  is_brace_or_hyphen (upper_char c) = is_brace_or_hyphen c.
Proof. destruct c as [[] [] [] [] [] [] [] []]; reflexivity. Qed.

Lemma toUpperCase_idemp s : toUpperCase (toUpperCase s) = toUpperCase s.
Proof.
  unfold toUpperCase. induction s as [|c s IH]; simpl; [reflexivity|].
  now rewrite upper_char_idemp, IH.
Qed.

(** Dropping characters before or after the case mapping is the same,
    for a class that the mapping respects. *)
Lemma strip_upper_commute s :
  strip_braces_hyphens (toUpperCase s) = toUpperCase (strip_braces_hyphens s).
Proof.
  unfold strip_braces_hyphens, toUpperCase.
  induction s as [|c s IH]; simpl; [reflexivity|].
  rewrite upper_char_class. destruct (is_brace_or_hyphen c); simpl; now rewrite IH.
Qed.

Lemma strip_idemp s :
  strip_braces_hyphens (strip_braces_hyphens s) = strip_braces_hyphens s.
Proof.
  unfold strip_braces_hyphens.
  induction s as [|c s IH]; simpl; [reflexivity|].
  destruct (negb (is_brace_or_hyphen c)) eqn:E; simpl; [rewrite E|]; now rewrite ?IH.
Qed.

Lemma substring_glue n m k s :
  String.substring n m s +:+ String.substring (n + m) k s
  = String.substring n (m + k) s.
Proof.
  revert n m. induction s as [|c s IH]; intros n m.
  - destruct n, m, k; reflexivity.
  - destruct n as [|n]; simpl.
    + destruct m as [|m]; [reflexivity|].
      cbn. rewrite append_cons. f_equal. apply (IH 0 m).
    + apply IH.
Qed.

Lemma substring_all s : String.substring 0 (String.length s) s = s.
Proof. induction s as [|c s IH]; simpl; [reflexivity | now rewrite IH]. Qed.

End StringFacts.

(** ** Identifier Normalizer *)

Lemma formatGuidWithoutHyphens_app s1 s2 :
  formatGuidWithoutHyphens (s1 +:+ s2)
  = formatGuidWithoutHyphens s1 +:+ formatGuidWithoutHyphens s2.
Proof.
  unfold formatGuidWithoutHyphens, strip_braces_hyphens, JsString.toUpperCase.
  now rewrite filter_chars_app, map_chars_app.
Qed.

Lemma formatGuidWithoutHyphens_idemp x :
  formatGuidWithoutHyphens (formatGuidWithoutHyphens x) = formatGuidWithoutHyphens x.
Proof.
  unfold formatGuidWithoutHyphens.
  now rewrite strip_upper_commute, strip_idemp, toUpperCase_idemp.
Qed.

(** The five slices of a 32-character string, put back together. *)
Lemma slices_32 s :
  String.length s = 32 ->
  JsString.substring 0 8 s +:+ JsString.substring 8 12 s +:+
  JsString.substring 12 16 s +:+ JsString.substring 16 20 s +:+
  JsString.substring 20 32 s = s.
Proof.
  intros Hlen. unfold JsString.substring. simpl Nat.sub.
  rewrite (substring_glue 16 4 12), (substring_glue 12 4 16),
          (substring_glue 8 4 20), (substring_glue 0 8 24).
  simpl Nat.add. rewrite <- Hlen. apply substring_all.
Qed.

(** C9. For every string [x], canonicalising, hyphenating and
    canonicalising again gives the canonical form of [x]:
    [toCanonical (toHyphenated (toCanonical x)) = toCanonical x], with
    [formatGuidWithoutHyphens] as [toCanonical] and [formatGuidWithHyphens]
    as [toHyphenated]. *)
Theorem canonical_hyphenated_roundtrip (x : string) :
  formatGuidWithoutHyphens (formatGuidWithHyphens (formatGuidWithoutHyphens x))
  = formatGuidWithoutHyphens x.
Proof.
  set (y := formatGuidWithoutHyphens x).
  assert (Hy : formatGuidWithoutHyphens y = y)
    by apply formatGuidWithoutHyphens_idemp.
  unfold formatGuidWithHyphens.
  change (JsString.toUpperCase (strip_braces_hyphens y))
    with (formatGuidWithoutHyphens y).
  rewrite Hy.
  destruct (String.length y =? 32)%nat eqn:Hlen; simpl.
  - apply Nat.eqb_eq in Hlen.
    rewrite !formatGuidWithoutHyphens_app.
    change (formatGuidWithoutHyphens "-") with EmptyString.
    rewrite !append_nil_l.
    rewrite <- !formatGuidWithoutHyphens_app.
    now rewrite (slices_32 y Hlen).
  - exact Hy.
Qed.

(** ** Report Assembler: summary counts *)

Lemma filter_partition_length {A : Type} (f : A -> bool) (l : list A) :
  length (List.filter f l) + length (List.filter (fun x => negb (f x)) l) = length l.
Proof.
  induction l as [|x l IH]; simpl; [reflexivity|].
  destruct (f x); simpl; lia.
Qed.

Lemma filter_implied_length {A : Type} (f g : A -> bool) (l : list A) :
  (forall x, x ∈ l -> f x = true -> g x = true) ->
  length (List.filter f l) <= length (List.filter g l).
Proof.
  induction l as [|x l IH]; intros Himp; simpl; [lia|].
  assert (IH' : length (List.filter f l) <= length (List.filter g l)).
  { apply IH. intros y Hy. apply Himp. now right. }
  destruct (f x) eqn:Hf; simpl.
  - rewrite (Himp x) by (trivial; now left). simpl. lia.
  - destruct (g x); simpl; lia.
Qed.

(** C10. For every list of records, [generateSummary] gives [totalItems]
    equal to the length of the list and [publishedItems + unpublishedItems
    = totalItems]; when every record of the list that is outdated is also
    published, [outdatedItems <= publishedItems]. *)
Theorem summary_partition (items : list ProcessedItemInfo.t) :
  totalItems (generateSummary items) = length items
  /\ publishedItems (generateSummary items) + unpublishedItems (generateSummary items)
     = totalItems (generateSummary items)
  /\ ((forall p, p ∈ items ->
         ProcessedItemInfo.isOutdated p = true ->
         ProcessedItemInfo.isPublished p = true) ->
      outdatedItems (generateSummary items) <= publishedItems (generateSummary items)).
Proof.
  unfold generateSummary; simpl. split; [reflexivity|]. split.
  - apply filter_partition_length.
  - apply filter_implied_length.
Qed.

(** ** Response Reconciler *)

Lemma processItemData_length authoring live itemIds cur :
  length (processItemData authoring live itemIds cur) = length itemIds.
Proof. unfold processItemData. apply length_imap. Qed.

Lemma processItemData_lookup authoring live itemIds cur i :
  processItemData authoring live itemIds cur !! i
  = processItem (validateResponse authoring) (validateResponse live) cur i
      <$> itemIds !! i.
Proof. unfold processItemData. apply list_lookup_imap. Qed.

(** What [validateResponse] hands on: the inner dictionary of an envelope
    without [error], whatever its [errors] array holds. *)
Lemma validated_success {P : Type} (d : gmap string (option P)) errs :
  validated (validateResponse (mkResult (Some (mkResponseData (Some d) errs)) None))
  = Some d.
Proof. reflexivity. Qed.

Lemma validated_error {P : Type} (rd : option (ResponseData P)) (e : JsError) :
  validated (validateResponse (mkResult rd (Some e))) = None.
Proof. reflexivity. Qed.

Lemma lookup_payload_success {P : Type} (d : gmap string (option P)) errs alias :
  lookup_payload
    (validateResponse (mkResult (Some (mkResponseData (Some d) errs)) None)) alias
  = mjoin (d !! alias).
Proof. reflexivity. Qed.

Lemma lookup_payload_error {P : Type} (rd : option (ResponseData P)) e alias :
  lookup_payload (validateResponse (mkResult rd (Some e))) alias = None.
Proof. reflexivity. Qed.

Lemma num_or_zero (n : Z) : num_or (Some n) 0 = n.
Proof. unfold num_or. destruct (Z.eqb_spec n 0); congruence. Qed.

Lemma str_or_empty (s : string) : str_or (Some s) "" = s.
Proof. destruct s; reflexivity. Qed.

(** C1. For identifiers [A, B, C], an authoring envelope whose data holds
    the alias [item1] only and a live envelope whose data holds the aliases
    [item0] and [item2] only, [processItemData] returns three records, for
    [A], [B] and [C] in this order; the record of [B] has the version of the
    authoring [item1] payload as [latestVersion] and no [publishedVersion];
    the records of [A] and [C] carry nothing of the authoring payload and
    each its own live payload. *)
Theorem ordinal_alignment
    (A B C : string) (a1 : AuthoringItemResponse.t) (l0 l2 : LiveItemResponse.t)
    (authoringErrors liveErrors : option (list GraphQLError))
    (currentItemId : option string) :
  exists rA rB rC,
    processItemData
      (mkResult (Some (mkResponseData (Some {[ "item1" := Some a1 ]}) authoringErrors)) None)
      (mkResult (Some (mkResponseData
                         (Some {[ "item0" := Some l0; "item2" := Some l2 ]}) liveErrors)) None)
      [A; B; C] currentItemId
    = [rA; rB; rC]
    /\ ProcessedItemInfo.id rA = A
    /\ ProcessedItemInfo.id rB = B
    /\ ProcessedItemInfo.id rC = C
    /\ ProcessedItemInfo.latestVersion rB = AuthoringItemResponse.version a1
    /\ ProcessedItemInfo.publishedVersion rB = None
    /\ ProcessedItemInfo.isPublished rB = false
    /\ ProcessedItemInfo.path rB = AuthoringItemResponse.path a1
    /\ ProcessedItemInfo.template rB = AuthoringItemResponse.template a1
    /\ ProcessedItemInfo.latestVersion rA = 0%Z
    /\ ProcessedItemInfo.path rA = ""
    /\ ProcessedItemInfo.template rA = None
    /\ ProcessedItemInfo.publishedVersion rA = num_or_null (Some (LiveItemResponse.version l0))
    /\ ProcessedItemInfo.latestVersion rC = 0%Z
    /\ ProcessedItemInfo.path rC = ""
    /\ ProcessedItemInfo.template rC = None
    /\ ProcessedItemInfo.publishedVersion rC = num_or_null (Some (LiveItemResponse.version l2)).
Proof.
  unfold processItemData. simpl imap.
  do 3 eexists. split; [reflexivity|].
  unfold processItem.
  rewrite !lookup_payload_success.
  change (item_alias 0) with "item0".
  change (item_alias 1) with "item1".
  change (item_alias 2) with "item2".
  replace (({[ "item1" := Some a1 ]} : gmap string _) !! "item0")
    with (@None (option AuthoringItemResponse.t)) by (vm_compute; reflexivity).
  replace (({[ "item1" := Some a1 ]} : gmap string _) !! "item1")
    with (Some (Some a1)) by (vm_compute; reflexivity).
  replace (({[ "item1" := Some a1 ]} : gmap string _) !! "item2")
    with (@None (option AuthoringItemResponse.t)) by (vm_compute; reflexivity).
  replace (({[ "item0" := Some l0; "item2" := Some l2 ]} : gmap string _) !! "item0")
    with (Some (Some l0)) by (vm_compute; reflexivity).
  replace (({[ "item0" := Some l0; "item2" := Some l2 ]} : gmap string _) !! "item1")
    with (@None (option LiveItemResponse.t)) by (vm_compute; reflexivity).
  replace (({[ "item0" := Some l0; "item2" := Some l2 ]} : gmap string _) !! "item2")
    with (Some (Some l2)) by (vm_compute; reflexivity).
  repeat split; try reflexivity.
  - apply num_or_zero.
  - apply str_or_empty.
Qed.

Lemma processItem_published_iff av lv cur i itemId :
  ProcessedItemInfo.isPublished (processItem av lv cur i itemId)
  = bool_decide (ProcessedItemInfo.publishedVersion (processItem av lv cur i itemId) ≠ None).
Proof. reflexivity. Qed.

(** C2, as the code has it. Each record of [processItemData], with [a] and
    [l] the authoring and live payloads of its ordinal: [latestVersion] is
    the version of [a], 0 without [a]; [publishedVersion] is the version of
    [l] when [l] is there with a version other than 0, and null when [l] is
    absent or its version is 0; [isPublished] says that [publishedVersion]
    is not null; [isOutdated] is [isPublished && publishedVersion <
    latestVersion]; [versionDifference] is [latestVersion -
    publishedVersion] when published and [latestVersion] otherwise. *)
Theorem field_formulas
    (authoring : ItemQueryResult AuthoringItemResponse.t)
    (live : ItemQueryResult LiveItemResponse.t)
    (itemIds : list string) (currentItemId : option string)
    (i : nat) (r : ProcessedItemInfo.t) :
  processItemData authoring live itemIds currentItemId !! i = Some r ->
  let a := lookup_payload (validateResponse authoring) (item_alias i) in
  let l := lookup_payload (validateResponse live) (item_alias i) in
  ProcessedItemInfo.latestVersion r = default 0%Z (AuthoringItemResponse.version <$> a)
  /\ ProcessedItemInfo.publishedVersion r
     = match l with
       | Some p => if (LiveItemResponse.version p =? 0)%Z then None
                   else Some (LiveItemResponse.version p)
       | None => None
       end
  /\ ProcessedItemInfo.isPublished r
     = bool_decide (ProcessedItemInfo.publishedVersion r ≠ None)
  /\ ProcessedItemInfo.isOutdated r
     = (ProcessedItemInfo.isPublished r
        && match ProcessedItemInfo.publishedVersion r with
           | Some pv => (pv <? ProcessedItemInfo.latestVersion r)%Z
           | None => false
           end)
  /\ ProcessedItemInfo.versionDifference r
     = match ProcessedItemInfo.publishedVersion r with
       | Some pv =>
           if ProcessedItemInfo.isPublished r
           then (ProcessedItemInfo.latestVersion r - pv)%Z
           else ProcessedItemInfo.latestVersion r
       | None => ProcessedItemInfo.latestVersion r
       end.
Proof.
  rewrite processItemData_lookup.
  destruct (itemIds !! i) as [itemId|]; [|discriminate].
  intros [= <-]. cbv zeta.
  unfold processItem; cbn [ProcessedItemInfo.latestVersion
    ProcessedItemInfo.publishedVersion ProcessedItemInfo.isPublished
    ProcessedItemInfo.isOutdated ProcessedItemInfo.versionDifference].
  destruct (lookup_payload (validateResponse authoring) (item_alias i)) as [a|];
    destruct (lookup_payload (validateResponse live) (item_alias i)) as [l|];
    cbn [fmap option_fmap option_map default num_or_null];
    rewrite ?num_or_zero;
    try destruct (LiveItemResponse.version l =? 0)%Z;
    repeat split; try reflexivity.
Qed.

(** Authoring at version 8 and live at version 5: outdated, three versions
    behind. *)
Lemma field_formulas_witness :
  exists r,
    processItemData outdated_authoring outdated_live [home_id] (Some home_id) !! 0
    = Some r
    /\ ProcessedItemInfo.latestVersion r = 8%Z
    /\ ProcessedItemInfo.publishedVersion r = Some 5%Z
    /\ ProcessedItemInfo.isPublished r = true
    /\ ProcessedItemInfo.isOutdated r = true
    /\ ProcessedItemInfo.versionDifference r = 3%Z.
Proof.
  eexists. split; [reflexivity|].
  pose proof (field_formulas outdated_authoring outdated_live [home_id]
                (Some home_id) 0 _ eq_refl) as H.
  vm_compute in H. vm_compute. tauto.
Defined.

(** C2, as stated, fails: a live payload at version 0 is present, yet the
    record has no [publishedVersion]. *)
Lemma published_version_zero_is_null :
  exists r l,
    processItemData outdated_authoring zero_version_live [home_id] (Some home_id) !! 0
    = Some r
    /\ lookup_payload (validateResponse zero_version_live) (item_alias 0) = Some l
    /\ ProcessedItemInfo.publishedVersion r = None
    /\ ProcessedItemInfo.publishedVersion r <> Some (LiveItemResponse.version l).
Proof.
  eexists; eexists. split; [reflexivity|]. split; [reflexivity|].
  split; [reflexivity | discriminate].
Qed.

(** C8, as the code has it. With an authoring success envelope that holds a
    payload for every ordinal and a live error envelope, [processItemData]
    gives one record per identifier; each has its identifier, no
    [publishedVersion], [isPublished] false, the path and the version of
    its authoring payload, and the name of that payload when it is not
    empty (an empty authoring name is replaced by ["Unknown Item"]). *)
Theorem live_failure_degradation
    (itemIds : list string)
    (authoringData : gmap string (option AuthoringItemResponse.t))
    (authoringErrors : option (list GraphQLError))
    (e : JsError) (currentItemId : option string) :
  (forall i, i < length itemIds ->
     exists a, authoringData !! item_alias i = Some (Some a)) ->
  let result :=
    processItemData
      (mkResult (Some (mkResponseData (Some authoringData) authoringErrors)) None)
      (error_envelope e) itemIds currentItemId in
  length result = length itemIds
  /\ forall i itemId, itemIds !! i = Some itemId ->
       exists a r,
         authoringData !! item_alias i = Some (Some a)
         /\ result !! i = Some r
         /\ ProcessedItemInfo.id r = itemId
         /\ ProcessedItemInfo.publishedVersion r = None
         /\ ProcessedItemInfo.isPublished r = false
         /\ ProcessedItemInfo.isOutdated r = false
         /\ ProcessedItemInfo.name r
            = (if JsString.is_empty (AuthoringItemResponse.name a)
               then "Unknown Item" else AuthoringItemResponse.name a)
         /\ ProcessedItemInfo.path r = AuthoringItemResponse.path a
         /\ ProcessedItemInfo.latestVersion r = AuthoringItemResponse.version a
         /\ ProcessedItemInfo.versionDifference r = AuthoringItemResponse.version a.
Proof.
  intros Hall result. split; [apply processItemData_length|].
  intros i itemId Hi.
  destruct (Hall i) as [a Ha]; [eapply lookup_lt_Some; eassumption|].
  exists a. eexists. split; [exact Ha|].
  subst result. rewrite processItemData_lookup, Hi. split; [reflexivity|].
  unfold processItem, error_envelope.
  rewrite lookup_payload_success, lookup_payload_error, Ha.
  cbn [mjoin option_join fmap option_fmap option_map mbind option_bind num_or_null
       ProcessedItemInfo.id ProcessedItemInfo.publishedVersion
       ProcessedItemInfo.isPublished ProcessedItemInfo.isOutdated
       ProcessedItemInfo.name ProcessedItemInfo.path
       ProcessedItemInfo.latestVersion ProcessedItemInfo.versionDifference].
  rewrite num_or_zero, str_or_empty.
  repeat split.
  unfold str_or2, truthy_str.
  destruct (JsString.is_empty (AuthoringItemResponse.name a)); reflexivity.
Qed.

Lemma live_failure_degradation_witness :
  (forall i, i < length [home_id] ->
     exists a,
       ({[ "item0" := Some (home_authoring "Home" 3) ]}
          : gmap string (option AuthoringItemResponse.t)) !! item_alias i
       = Some (Some a))
  /\ exists r,
       processItemData
         (authoring_success {[ "item0" := Some (home_authoring "Home" 3) ]})
         (error_envelope fetch_failed) [home_id] (Some home_id) !! 0 = Some r
       /\ ProcessedItemInfo.publishedVersion r = None
       /\ ProcessedItemInfo.isPublished r = false
       /\ ProcessedItemInfo.name r = "Home"
       /\ ProcessedItemInfo.path r = "/sitecore/content/Home"
       /\ ProcessedItemInfo.latestVersion r = 3%Z.
Proof.
  assert (Hall : forall i, i < length [home_id] ->
     exists a,
       ({[ "item0" := Some (home_authoring "Home" 3) ]}
          : gmap string (option AuthoringItemResponse.t)) !! item_alias i
       = Some (Some a)).
  { intros [|i] Hi; [|simpl in Hi; lia]. eexists. vm_compute. reflexivity. }
  split; [exact Hall|].
  destruct (live_failure_degradation [home_id]
              {[ "item0" := Some (home_authoring "Home" 3) ]} None fetch_failed
              (Some home_id) Hall) as [_ Hrec].
  destruct (Hrec 0 home_id eq_refl)
    as (a & r & Ha & Hr & _ & Hpv & Hpub & _ & Hname & Hpath & Hver & _).
  assert (a = home_authoring "Home" 3) as ->.
  { vm_compute in Ha. injection Ha as <-. reflexivity. }
  exists r. split; [exact Hr|]. split; [exact Hpv|]. split; [exact Hpub|].
  split; [exact Hname|]. split; [exact Hpath | exact Hver].
Defined.

(** C8, as stated, fails on the name: an authoring payload with an empty
    name comes out as ["Unknown Item"]. *)
Lemma unnamed_item_renamed :
  exists r a,
    processItemData unnamed_authoring (error_envelope fetch_failed)
      [home_id] (Some home_id) !! 0 = Some r
    /\ lookup_payload (validateResponse unnamed_authoring) (item_alias 0) = Some a
    /\ ProcessedItemInfo.name r = "Unknown Item"
    /\ ProcessedItemInfo.name r <> AuthoringItemResponse.name a.
Proof.
  eexists; eexists. split; [reflexivity|]. split; [reflexivity|].
  split; [reflexivity | discriminate].
Qed.

(** ** Datasource Expression Parser *)

(** C6, as the code has it. The datasource value
    [{AAAAAAAA-BBBB-CCCC-DDDD-EEEEEEEEEEEE}|local:/Data/Text 1] parses into
    the direct identifier [AAAAAAAABBBBCCCCDDDDEEEEEEEEEEEE] and the local
    path [Data/Text 1]: the prefix [local:/] is removed and nothing else. *)
Theorem parse_guid_and_local_path :
  parseDatasourceValue (JStr "{AAAAAAAA-BBBB-CCCC-DDDD-EEEEEEEEEEEE}|local:/Data/Text 1")
  = mkParsed ["AAAAAAAABBBBCCCCDDDDEEEEEEEEEEEE"] ["Data/Text 1"].
Proof. vm_compute. reflexivity. Qed.

(** C6, as stated, fails: the local path is not [Text 1]. *)
Lemma parse_local_path_keeps_data_segment :
  localPaths
    (parseDatasourceValue
       (JStr "{AAAAAAAA-BBBB-CCCC-DDDD-EEEEEEEEEEEE}|local:/Data/Text 1"))
  <> ["Text 1"].
Proof. vm_compute. discriminate. Qed.

(** ** Context Graph Walker *)

(** C4 at a context without any identifier whose presentation details hold
    a direct identifier and a local path: the result is not the empty one;
    the identifier, the local path and the page path are returned, and
    no identifier is to be found anywhere in the context. *)
Theorem missing_anchor_keeps_local_paths (JSON_parse : string -> option JsValue) :
  truthy_string (current_item_candidate anchorless_local_context) = None
  /\ extractItemIdsWithLocalPaths JSON_parse anchorless_local_context
     = mkExtracted ["9C8262E464564946B04ED5873874615E"] ["Data/Text 1"]
                   (JStr "/sitecore/content/Home").
Proof. split; vm_compute; reflexivity. Qed.

(** C5 at a page that is its own second datasource: the current item, whose
    canonical identifier is [5ED521788F0649BE9D4CF191E650189E], stays where
    the walk met it, behind the first datasource. *)
Theorem current_item_not_moved_to_front (JSON_parse : string -> option JsValue) :
  normalizeItemId <$> truthy_string (current_item_candidate self_reference_context)
  = Some "5ED521788F0649BE9D4CF191E650189E"
  /\ itemIds (extractItemIdsWithLocalPaths JSON_parse self_reference_context)
     = ["9C8262E464564946B04ED5873874615E"; "5ED521788F0649BE9D4CF191E650189E"].
Proof. split; vm_compute; reflexivity. Qed.

Lemma extractItemIdsWithLocalPaths_unfold JSON_parse pageContext :
  extractItemIdsWithLocalPaths JSON_parse pageContext
  = if negb (truthy pageContext && is_object pageContext) then empty_extraction
    else
      let pageInfo := field pageContext "pageInfo" in
      let found := collected JSON_parse pageContext in
      let itemIds0 := push_all_unique [] (directIds found) in
      let currentPagePath0 :=
        if truthy pageInfo && is_object pageInfo
        then js_or (field pageInfo "path") (JStr "") else JStr "" in
      if negb (length (localPaths found) =? 0)%nat then
        mkExtracted
          (match truthy_string
                   (if truthy pageInfo && is_object pageInfo
                    then js_or (js_or (field pageInfo "itemId") (field pageInfo "id"))
                               (field pageInfo "pageId")
                    else JNull) with
           | Some s => add_current_first itemIds0 s
           | None => itemIds0
           end)
          (localPaths found) currentPagePath0
      else
        match truthy_string (current_item_candidate pageContext) with
        | Some s => mkExtracted (add_current_first itemIds0 s) [] currentPagePath0
        | None => empty_extraction
        end.
Proof. reflexivity. Qed.

(** Without an identifier anywhere and without a local path collected, the
    result is the empty one, whatever direct identifiers were collected. *)
Lemma missing_anchor_without_local_paths JSON_parse pageContext :
  truthy_string (current_item_candidate pageContext) = None ->
  localPaths (collected JSON_parse pageContext) = [] ->
  extractItemIdsWithLocalPaths JSON_parse pageContext = empty_extraction.
Proof.
  intros Hnone Hlocal. rewrite extractItemIdsWithLocalPaths_unfold.
  destruct (negb (truthy pageContext && is_object pageContext)); [reflexivity|].
  cbv zeta. rewrite Hlocal. simpl. now rewrite Hnone.
Qed.

Lemma missing_anchor_without_local_paths_witness :
  extractItemIdsWithLocalPaths no_json anchorless_direct_context = empty_extraction.
Proof.
  apply missing_anchor_without_local_paths; vm_compute; reflexivity.
Defined.

(** With a local path collected, the function returns at once, with the
    local paths, before the fallbacks and before the missing-anchor check. *)
Lemma local_paths_returned JSON_parse pageContext :
  truthy pageContext && is_object pageContext = true ->
  localPaths (collected JSON_parse pageContext) <> [] ->
  localPathsToResolve (extractItemIdsWithLocalPaths JSON_parse pageContext)
  = localPaths (collected JSON_parse pageContext).
Proof.
  intros Hobj Hlocal. rewrite extractItemIdsWithLocalPaths_unfold, Hobj.
  cbv zeta. simpl negb at 1. cbv iota.
  destruct (localPaths (collected JSON_parse pageContext)); [congruence|reflexivity].
Qed.

Lemma local_paths_returned_witness :
  localPathsToResolve (extractItemIdsWithLocalPaths no_json anchorless_local_context)
  = ["Data/Text 1"].
Proof.
  rewrite local_paths_returned; [reflexivity | reflexivity | ].
  vm_compute. discriminate.
Defined.

Lemma push_unique_NoDup (l : list string) x : NoDup l -> NoDup (push_unique l x).
Proof.
  intros Hl. unfold push_unique. case_bool_decide as Hx; [exact Hl|].
  apply NoDup_app. split; [exact Hl|]. split.
  - intros y Hy Hy'. apply list_elem_of_singleton in Hy'. now subst.
  - apply NoDup_singleton.
Qed.

Lemma push_all_unique_NoDup (l xs : list string) :
  NoDup l -> NoDup (push_all_unique l xs).
Proof.
  unfold push_all_unique. revert l.
  induction xs as [|x xs IH]; intros l Hl; simpl; [exact Hl|].
  apply IH. now apply push_unique_NoDup.
Qed.

Lemma unshift_unique_NoDup (l : list string) x :
  NoDup l -> NoDup (unshift_unique l x).
Proof.
  intros Hl. unfold unshift_unique. case_bool_decide as Hx; [exact Hl|].
  now apply NoDup_cons.
Qed.

Lemma extracted_ids_unique JSON_parse pageContext :
  NoDup (itemIds (extractItemIdsWithLocalPaths JSON_parse pageContext)).
Proof.
  rewrite extractItemIdsWithLocalPaths_unfold.
  assert (H0 : NoDup (push_all_unique [] (directIds (collected JSON_parse pageContext))))
    by (apply push_all_unique_NoDup, NoDup_nil_2).
  destruct (negb (truthy pageContext && is_object pageContext));
    [apply NoDup_nil_2|].
  cbv zeta.
  destruct (negb (length (localPaths (collected JSON_parse pageContext)) =? 0)%nat).
  - simpl. destruct (truthy_string _); [now apply unshift_unique_NoDup | exact H0].
  - destruct (truthy_string _); simpl;
      [now apply unshift_unique_NoDup | apply NoDup_nil_2].
Qed.

(** The identifier list of the walker never holds an identifier twice. *)
Lemma itemIds_NoDup JSON_parse pageContext :
  NoDup (itemIds (extractItemIdsWithLocalPaths JSON_parse pageContext)).
Proof. apply extracted_ids_unique. Qed.

(** The current item is first when the walk did not collect it: it is
    inserted at the front. *)
Lemma current_item_inserted_first JSON_parse pageContext s :
  truthy pageContext && is_object pageContext = true ->
  localPaths (collected JSON_parse pageContext) = [] ->
  truthy_string (current_item_candidate pageContext) = Some s ->
  normalizeItemId s ∉ directIds (collected JSON_parse pageContext) ->
  head (itemIds (extractItemIdsWithLocalPaths JSON_parse pageContext))
  = Some (normalizeItemId s).
Proof.
  intros Hobj Hlocal Hcur Hfresh.
  rewrite extractItemIdsWithLocalPaths_unfold, Hobj. cbv zeta.
  rewrite Hlocal, Hcur. simpl.
  unfold add_current_first, unshift_unique.
  case_bool_decide as Hin; [|reflexivity].
  exfalso. apply Hfresh. revert Hin. unfold push_all_unique.
  generalize (directIds (collected JSON_parse pageContext)). intros xs.
  assert (Hgen : forall acc, normalizeItemId s ∈ foldl push_unique acc xs ->
                             normalizeItemId s ∈ acc \/ normalizeItemId s ∈ xs).
  { induction xs as [|x xs IH]; intros acc H; simpl in H; [now left|].
    destruct (IH _ H) as [Hacc|Hxs]; [|right; now right].
    unfold push_unique in Hacc. case_bool_decide; [now left|].
    apply elem_of_app in Hacc as [?|Hx]; [now left|].
    apply list_elem_of_singleton in Hx. subst. right; now left. }
  intros Hin. destruct (Hgen [] Hin) as [Hnil|Hxs]; [|exact Hxs].
  now apply not_elem_of_nil in Hnil.
Qed.

Lemma current_item_inserted_first_witness :
  head (itemIds (extractItemIdsWithLocalPaths no_json plain_context))
  = Some "5ED521788F0649BE9D4CF191E650189E".
Proof.
  apply (current_item_inserted_first no_json plain_context
           "{5ED52178-8F06-49BE-9D4C-F191E650189E}");
    try (vm_compute; reflexivity).
  vm_compute. intros H. inversion H.
Defined.

(** A current item known from [siteInfo] only is left out of the list when
    a local path was collected. *)
Lemma site_anchor_left_out (JSON_parse : string -> option JsValue) :
  truthy_string (current_item_candidate site_anchor_local_context)
  = Some "{5ED52178-8F06-49BE-9D4C-F191E650189E}"
  /\ extractItemIdsWithLocalPaths JSON_parse site_anchor_local_context
     = mkExtracted [] ["Data/Text 1"] (JStr "/sitecore/content/Home").
Proof. split; vm_compute; reflexivity. Qed.

(** ** Dual-Endpoint Fetcher *)

(** C3, as stated, fails: with a client, a non-empty list and no context
    token, [getItemsFromAuthoring] throws, that is, its promise rejects. *)
Lemma authoring_rejects_without_context :
  getItemsFromAuthoring (P := AuthoringItemResponse.t)
    (Some idle_client) [home_id] None
  = Rejected (new_Error "sitecoreContextId is required for authoring GraphQL queries").
Proof. reflexivity. Qed.

(** C3, as the code has it. [getItemsFromLive] always resolves: to the
    empty success envelope, to an error envelope, or to [{ data: result }]
    with the parsed body of the response. [getItemsFromAuthoring] resolves
    too (to the empty success envelope, to an error envelope, or to what
    the client's call resolved to) when the client is absent, the list is
    empty or the context token is present and not empty; with a client, a
    non-empty list and an absent or empty context token it rejects with
    the error [sitecoreContextId is required for authoring GraphQL
    queries]. *)
Theorem fetcher_containment {P : Type}
    (fetch : string -> string -> list (string * string) -> string
             -> Outcome (FetchResponse P))
    (JSON_stringify_query : string -> string) (LIVE_TOKEN : string)
    (client : option (ClientSDK P)) (itemIds : list string)
    (sitecoreContextId : option string) :
  (exists r,
      getItemsFromLive fetch JSON_stringify_query LIVE_TOKEN client itemIds
        sitecoreContextId
      = Resolved r
      /\ (r = empty_envelope
          \/ (exists e, r = error_envelope e)
          \/ (exists result, r = mkResult (Some result) None)))
  /\ (client = None \/ itemIds = [] \/ truthy_str sitecoreContextId <> None ->
      exists r,
        getItemsFromAuthoring client itemIds sitecoreContextId = Resolved r
        /\ (r = empty_envelope
            \/ (exists e, r = error_envelope e)
            \/ (exists c ctx query,
                   client = Some c
                   /\ mutate c "xmc.authoring.graphql" ctx query = Resolved r)))
  /\ (client <> None -> itemIds <> [] -> truthy_str sitecoreContextId = None ->
      getItemsFromAuthoring client itemIds sitecoreContextId
      = Rejected (new_Error "sitecoreContextId is required for authoring GraphQL queries")).
Proof.
  split; [|split].
  - unfold getItemsFromLive. destruct itemIds as [|itemId rest]; [eauto|].
    destruct (fetch _ _ _ _) as [response|e]; [|eauto 6].
    destruct (ok response); simpl; [|eauto 6].
    destruct (json response) as [result|e]; eauto 6.
  - intros Hcase. unfold getItemsFromAuthoring.
    destruct client as [c|]; [|eauto].
    destruct itemIds as [|itemId rest]; [eauto|].
    destruct (truthy_str sitecoreContextId) as [ctx|] eqn:Hctx.
    + destruct (mutate c _ ctx _) as [result|e] eqn:Hcall; [|eauto 6].
      exists result. split; [reflexivity|]. right; right. eauto 6.
    + destruct Hcase as [?|[?|?]]; congruence.
  - intros Hclient Hids Hctx. unfold getItemsFromAuthoring.
    destruct client as [c|]; [|congruence].
    destruct itemIds as [|itemId rest]; [congruence|].
    now rewrite Hctx.
Qed.

(** With the network down and a context token at hand, both calls resolve
    to error envelopes. *)
Lemma fetcher_containment_witness :
  getItemsFromLive (P := LiveItemResponse.t) offline_fetch (fun q => q) "key"
    (Some idle_client) [home_id] (Some "ctx")
  = Resolved (error_envelope fetch_failed)
  /\ truthy_str (Some "ctx") <> None
  /\ getItemsFromAuthoring (P := AuthoringItemResponse.t)
       (Some failing_client) [home_id] (Some "ctx")
     = Resolved (error_envelope fetch_failed).
Proof.
  split; [reflexivity|]. split; [discriminate|].
  destruct (fetcher_containment (P := AuthoringItemResponse.t)
              offline_fetch (fun q => q) "key" (Some failing_client) [home_id]
              (Some "ctx"))
    as (_ & Hresolves & _).
  destruct Hresolves as (r & Hr & _); [right; right; discriminate|].
  rewrite Hr. f_equal. vm_compute in Hr. injection Hr as <-. reflexivity.
Defined.

(** ** Local Path Resolver *)

(** C7 at an item whose wire identifier is braced and hyphenated: the
    braces go, the hyphens stay. *)
Theorem resolver_keeps_hyphens :
  resolveLocalDatasourcePaths
    (Some (resolving_client "{9c8262e4-6456-4946-b04e-d5873874615e}"))
    ["Data/Text 1"] "/sitecore/content/Home" "ctx"
  = Resolved {[ "Data/Text 1" := Some "9C8262E4-6456-4946-B04E-D5873874615E" ]}
  /\ formatGuidWithoutHyphens "{9c8262e4-6456-4946-b04e-d5873874615e}"
     = "9C8262E464564946B04ED5873874615E".
Proof. split; vm_compute; reflexivity. Qed.







(** On a wire identifier without hyphens the resolver's value is the
    canonical form. *)
Lemma strip_braces_canonical (itemId : string) :
  no_hyphen itemId = true ->
  JsString.toUpperCase (strip_braces itemId) = formatGuidWithoutHyphens itemId.
Proof.
  intros Hno. unfold formatGuidWithoutHyphens. f_equal.
  unfold strip_braces, strip_braces_hyphens.
  induction itemId as [|ch s IH]; [reflexivity|].
  simpl in Hno. apply andb_true_iff in Hno as [Hch Hs].
  simpl. rewrite (IH Hs).
  unfold is_brace_or_hyphen, is_brace.
  apply negb_true_iff in Hch. rewrite Hch, orb_false_r. reflexivity.
Qed.

Lemma strip_braces_canonical_witness :
  JsString.toUpperCase (strip_braces "{9c8262e464564946b04ed5873874615e}")
  = formatGuidWithoutHyphens "{9c8262e464564946b04ed5873874615e}".
Proof. apply strip_braces_canonical. vm_compute. reflexivity. Defined.



(** ** Records of the Reconciler *)

(** A record of the Reconciler is outdated only if it is published. *)
Lemma outdated_implies_published authoring live itemIds cur r :
  r ∈ processItemData authoring live itemIds cur ->
  ProcessedItemInfo.isOutdated r = true -> ProcessedItemInfo.isPublished r = true.
Proof.
  intros Hin. apply list_elem_of_lookup in Hin as [i Hi].
  rewrite processItemData_lookup in Hi.
  destruct (itemIds !! i) as [itemId|]; [|discriminate].
  injection Hi as <-. unfold processItem; simpl.
  destruct (num_or_null _); simpl; [reflexivity | discriminate].
Qed.

Lemma outdated_implies_published_witness :
  forallb (fun r => implb (ProcessedItemInfo.isOutdated r) (ProcessedItemInfo.isPublished r))
          sample_items = true.
Proof.
  apply forallb_forall. intros r Hr. apply list_elem_of_In in Hr.
  pose proof (outdated_implies_published _ _ _ _ r Hr) as H.
  destruct (ProcessedItemInfo.isOutdated r); [now rewrite H | reflexivity].
Defined.

(** Every record of the Reconciler that is outdated is published. *)
Theorem reconciled_outdated_published authoring live itemIds cur r :
  r ∈ processItemData authoring live itemIds cur ->
  ProcessedItemInfo.isOutdated r = true -> ProcessedItemInfo.isPublished r = true.
Proof. apply outdated_implies_published. Qed.

Lemma reconciled_outdated_published_witness :
  exists r,
    sample_items !! 0 = Some r
    /\ ProcessedItemInfo.isOutdated r = true
    /\ ProcessedItemInfo.isPublished r = true.
Proof.
  eexists. split; [reflexivity|]. split; [reflexivity|].
  apply (reconciled_outdated_published outdated_authoring outdated_live
           [home_id; "9C8262E464564946B04ED5873874615E"] (Some home_id));
    [|reflexivity].
  apply list_elem_of_lookup. exists 0. reflexivity.
Defined.

(** A record of the Reconciler that is not published has its latest
    version as version difference. *)
Lemma unpublished_difference authoring live itemIds cur r :
  r ∈ processItemData authoring live itemIds cur ->
  ProcessedItemInfo.isPublished r = false ->
  ProcessedItemInfo.versionDifference r = ProcessedItemInfo.latestVersion r.
Proof.
  intros Hin. apply list_elem_of_lookup in Hin as [i Hi].
  rewrite processItemData_lookup in Hi.
  destruct (itemIds !! i) as [itemId|]; [|discriminate].
  injection Hi as <-. unfold processItem; simpl.
  destruct (num_or_null _); simpl; [discriminate | reflexivity].
Qed.

Lemma unpublished_difference_witness :
  exists r,
    sample_items !! 1 = Some r
    /\ ProcessedItemInfo.isPublished r = false
    /\ ProcessedItemInfo.versionDifference r = ProcessedItemInfo.latestVersion r.
Proof.
  eexists. split; [reflexivity|]. split; [reflexivity|].
  apply (unpublished_difference outdated_authoring outdated_live
           [home_id; "9C8262E464564946B04ED5873874615E"] (Some home_id));
    [|reflexivity].
  apply list_elem_of_lookup. exists 1. reflexivity.
Defined.

Lemma summary_partition_witness :
  generateSummary sample_items = mkSummary 2 1 1 1
  /\ outdatedItems (generateSummary sample_items)
     <= publishedItems (generateSummary sample_items).
Proof.
  split; [vm_compute; reflexivity|].
  apply (summary_partition sample_items).
  intros p Hp. exact (outdated_implies_published _ _ _ _ p Hp).
Defined.

(** ** Evaluations *)

Example isValidGuid_braced :
  isValidGuid "{5ED52178-8F06-49BE-9D4C-F191E650189E}" = true.
Proof. reflexivity. Qed.

Example isValidGuid_hyphenated :
  isValidGuid "5ed52178-8f06-49be-9d4c-f191e650189e" = true.
Proof. reflexivity. Qed.

Example isValidGuid_compact :
  isValidGuid "5ED521788F0649BE9D4CF191E650189E" = false.
Proof. reflexivity. Qed.

Example formatGuidWithHyphens_compact :
  formatGuidWithHyphens "5ed521788f0649be9d4cf191e650189e"
  = "5ED52178-8F06-49BE-9D4C-F191E650189E".
Proof. reflexivity. Qed.

Example formatGuidWithHyphens_short : formatGuidWithHyphens "{abc}" = "{abc}".
Proof. reflexivity. Qed.

Example trim_example : JsString.trim "  a b  " = "a b".
Proof. reflexivity. Qed.

Example split_example : JsString.split "|" "a||b|" = ["a"; ""; "b"; ""].
Proof. reflexivity. Qed.

Example full_path_example :
  full_path "/sitecore/content/Home" "Data/Text 1" = "/sitecore/content/Home/Data/Text 1".
Proof. reflexivity. Qed.

Example parse_skips_query_and_unknown :
  parseDatasourceValue (JStr " query:/sitecore/content//* | something |/sitecore/content/Shared ")
  = mkParsed [] ["/sitecore/content/Shared"].
Proof. vm_compute. reflexivity. Qed.

(** A page with its identifier and no presentation details. *)
Example walker_plain_context (JSON_parse : string -> option JsValue) :
  extractItemIdsWithLocalPaths JSON_parse plain_context
  = mkExtracted ["5ED521788F0649BE9D4CF191E650189E"] [] (JStr "").
Proof. vm_compute. reflexivity. Qed.

(** A [null] rendering throws; what was collected before it stays. *)
Example walker_keeps_partial_results (JSON_parse : string -> option JsValue) :
  extractDatasourcesFromPresentationDetails JSON_parse
    (obj [("devices",
           JArr [obj [("renderings",
                       JArr [obj [("dataSource",
                                   JStr "{9C8262E4-6456-4946-B04E-D5873874615E}")];
                             JNull;
                             obj [("dataSource", JStr "local:/Data/Text 1")]])]])])
  = mkParsed ["9C8262E464564946B04ED5873874615E"] [].
Proof. vm_compute. reflexivity. Qed.

(** Presentation details that do not parse contribute nothing. *)
Example walker_malformed_json :
  extractItemIdsWithLocalPaths no_json
    (obj [("pageInfo",
           obj [("id", JStr "{5ED52178-8F06-49BE-9D4C-F191E650189E}");
                ("presentationDetails", JStr "{not json")])])
  = mkExtracted ["5ED521788F0649BE9D4CF191E650189E"] [] (JStr "").
Proof. vm_compute. reflexivity. Qed.

(** Authoring and live both at version 6. *)
Example reconcile_up_to_date :
  processItemData
    (authoring_success {[ "item0" := Some (home_authoring "Home" 6) ]})
    (live_success {[ "item0" := Some (home_live 6) ]})
    [home_id] (Some home_id)
  = [ProcessedItemInfo.mk home_id "Home" "/sitecore/content/Home" 6 (Some 6%Z)
       true false 0 current (Some "Page") "en"].
Proof. vm_compute. reflexivity. Qed.

Example summary_of_nothing : generateSummary [] = mkSummary 0 0 0 0.
Proof. reflexivity. Qed.

(** ** Report Assembler: the response *)

(** The reserved item stands in for the current item exactly when the list
    of records is empty. *)
Lemma sentinel_iff_empty (items : list ProcessedItemInfo.t) :
  currentItem (createItemInformationResponse items) = NoCurrentItem <-> items = [].
Proof.
  unfold createItemInformationResponse; simpl. split.
  - destruct items as [|x items]; [reflexivity|]. simpl.
    destruct (is_current x); [discriminate|].
    destruct (List.find is_current items); discriminate.
  - intros ->. reflexivity.
Qed.

Lemma find_filter_count {A : Type} (f : A -> bool) (l : list A) (c : A) :
  List.find f l = Some c ->
  length (List.filter f l) <= 1 ->
  l ≡ₚ c :: List.filter (fun x => negb (f x)) l.
Proof.
  induction l as [|x l IH]; simpl; [discriminate|].
  destruct (f x) eqn:Hf; simpl.
  - intros [= ->] Hlen.
    assert (Hnil : List.filter f l = []).
    { destruct (List.filter f l); [reflexivity | simpl in Hlen; lia]. }
    assert (Hall : List.filter (fun x => negb (f x)) l = l).
    { clear -Hnil.
      induction l as [|y l IH]; simpl in *; [reflexivity|].
      destruct (f y); [discriminate|]. simpl. f_equal. now apply IH. }
    now rewrite Hall.
  - intros Hfind Hlen. rewrite (IH Hfind Hlen) at 1. apply Permutation_swap.
Qed.

(** For a list that is not empty, the current item of the response is a
    record of the list; no referenced item is flagged current; and when at
    most one record is flagged current, the current item and the
    referenced items together are the records of the list, none lost. *)
Theorem response_covers_items (items : list ProcessedItemInfo.t) :
  items <> [] ->
  exists c,
    currentItem (createItemInformationResponse items) = ActualItem c
    /\ c ∈ items
    /\ (is_current c = false -> head items = Some c /\ Forall (fun x => is_current x = false) items)
    /\ (length (List.filter is_current items) <= 1 ->
        items ≡ₚ c :: referencedItems (createItemInformationResponse items)).
Proof.
  intros Hne. unfold createItemInformationResponse; simpl.
  destruct (List.find is_current items) as [c|] eqn:Hfind.
  - exists c. split; [reflexivity|].
    destruct (find_some _ _ Hfind) as [Hin Hcur].
    split; [now apply list_elem_of_In|].
    split; [congruence|].
    intros Hlen. now apply find_filter_count.
  - destruct items as [|x items]; [congruence|].
    exists x. simpl. split; [reflexivity|]. split; [now left|].
    split; [|reflexivity].
    intros _. split; [reflexivity|].
    apply Forall_forall. intros y Hy.
    apply list_elem_of_In in Hy.
    destruct (is_current y) eqn:Hcur; [|reflexivity].
    now rewrite (find_none _ _ Hfind y Hy) in Hcur.
Qed.

Lemma response_covers_items_witness :
  exists c,
    currentItem (createItemInformationResponse sample_items) = ActualItem c
    /\ ProcessedItemInfo.id c = home_id
    /\ sample_items ≡ₚ c :: referencedItems (createItemInformationResponse sample_items).
Proof.
  destruct (response_covers_items sample_items) as (c & Hc & _ & _ & Hperm);
    [discriminate|].
  exists c. split; [exact Hc|]. split.
  - vm_compute in Hc. injection Hc as <-. reflexivity.
  - apply Hperm. vm_compute. lia.
Defined.

(** Once a record is flagged current, the referenced items are the records
    not flagged, so that every flagged record but the first is in no part
    of the response. *)
Theorem referenced_items_drop_flagged (items : list ProcessedItemInfo.t) (c : ProcessedItemInfo.t) :
  List.find is_current items = Some c ->
  referencedItems (createItemInformationResponse items)
  = List.filter (fun item => negb (is_current item)) items
  /\ length (referencedItems (createItemInformationResponse items))
     + length (List.filter is_current items) = length items.
Proof.
  intros Hfind. unfold createItemInformationResponse; simpl. rewrite Hfind.
  split; [reflexivity|].
  rewrite Nat.add_comm. apply filter_partition_length.
Qed.

Lemma referenced_items_drop_flagged_witness :
  length doubled_items = 2
  /\ referencedItems (createItemInformationResponse doubled_items) = [].
Proof.
  split; [reflexivity|].
  destruct (referenced_items_drop_flagged doubled_items
              (processItem (validateResponse outdated_authoring)
                 (validateResponse outdated_live) (Some home_id) 0 home_id) eq_refl)
    as [Href _].
  rewrite Href. reflexivity.
Defined.

(** ** Records of the Reconciler, continued *)

(** The records come in the order of the identifier list and carry its
    identifiers. *)
Lemma processItemData_ids authoring live itemIds cur :
  map ProcessedItemInfo.id (processItemData authoring live itemIds cur) = itemIds.
Proof.
  apply list_eq. intros i.
  rewrite list_lookup_fmap, processItemData_lookup.
  destruct (itemIds !! i); reflexivity.
Qed.

Lemma processItem_is_current av lv cur i itemId :
  is_current (processItem av lv cur i itemId) = bool_decide (Some itemId = cur).
Proof.
  unfold is_current, processItem, determineItemType; simpl.
  case_bool_decide; reflexivity.
Qed.

Lemma filter_imap_ids {A B : Type} (p : B -> bool) (q : A -> bool) (g : B -> A)
    (l : list A) :
  forall f : nat -> A -> B,
    (forall k x, p (f k x) = q x) ->
    (forall k x, g (f k x) = x) ->
    map g (List.filter p (imap f l)) = List.filter q l.
Proof.
  induction l as [|a l IH]; intros f Hp Hg; [reflexivity|].
  simpl. rewrite Hp.
  destruct (q a); simpl; rewrite ?Hg; [f_equal|];
    apply IH; intros; unfold compose; auto.
Qed.

Lemma flagged_record_id authoring live itemIds cur c :
  c ∈ processItemData authoring live itemIds (Some cur) ->
  is_current c = true ->
  ProcessedItemInfo.id c = cur.
Proof.
  intros Hin Hcur. apply list_elem_of_lookup in Hin as [i Hi].
  rewrite processItemData_lookup in Hi.
  destruct (itemIds !! i) as [itemId|]; [|discriminate].
  injection Hi as <-. rewrite processItem_is_current in Hcur.
  apply bool_decide_eq_true in Hcur. simpl. congruence.
Qed.

Lemma flagged_record_found authoring live itemIds cur :
  cur ∈ itemIds ->
  exists c, List.find is_current (processItemData authoring live itemIds (Some cur))
            = Some c.
Proof.
  intros Hin.
  destruct (List.find is_current _) as [c|] eqn:Hfind; [eauto|]. exfalso.
  apply list_elem_of_lookup in Hin as [i Hi].
  pose proof (find_none _ _ Hfind
                (processItem (validateResponse authoring) (validateResponse live)
                   (Some cur) i cur)) as Hnone.
  rewrite processItem_is_current, bool_decide_eq_false in Hnone.
  apply Hnone; [|reflexivity].
  apply list_elem_of_In, list_elem_of_lookup. exists i.
  now rewrite processItemData_lookup, Hi.
Qed.

(** The report of a fetch cycle. When the current identifier stands in the
    identifier list, the current item of the response is a record of that
    identifier, and the referenced items are, in order, the records of the
    other identifiers. *)
Theorem report_of_reconciled authoring live (itemIds : list string) (cur : string) :
  cur ∈ itemIds ->
  let report :=
    createItemInformationResponse (processItemData authoring live itemIds (Some cur)) in
  current_item_id (currentItem report) = cur
  /\ map ProcessedItemInfo.id (referencedItems report)
     = List.filter (fun x => negb (bool_decide (x = cur))) itemIds
  /\ totalItems (summary report) = length itemIds.
Proof.
  intros Hin report. subst report.
  destruct (flagged_record_found authoring live itemIds cur Hin) as [c Hfind].
  unfold createItemInformationResponse; simpl. rewrite Hfind. simpl.
  split; [|split].
  - destruct (find_some _ _ Hfind) as [Hc Hcur].
    apply list_elem_of_In in Hc.
    exact (flagged_record_id _ _ _ _ _ Hc Hcur).
  - unfold processItemData. apply filter_imap_ids.
    + intros k x. rewrite processItem_is_current. f_equal.
      apply bool_decide_ext. split; congruence.
    + reflexivity.
  - apply processItemData_length.
Qed.

Lemma report_of_reconciled_witness :
  current_item_id
    (currentItem (createItemInformationResponse
       (processItemData outdated_authoring outdated_live
          ["9C8262E464564946B04ED5873874615E"; home_id] (Some home_id))))
  = home_id.
Proof.
  apply (report_of_reconciled outdated_authoring outdated_live
           ["9C8262E464564946B04ED5873874615E"; home_id] home_id).
  right. left.
Defined.

(** What [validateResponse] extracts and what it calls valid: the data
    dictionary is handed on exactly when the envelope has no [error] and
    has [data.data]; the response is valid exactly when, besides, its
    [errors] array is absent or empty. A populated [errors] array makes a
    response invalid without withholding its data. *)
Theorem validateResponse_spec {P : Type} (response : ItemQueryResult P)
    (d : gmap string (option P)) :
  (validated (validateResponse response) = Some d
   <-> error response = None /\ data response ≫= rd_data = Some d)
  /\ (isValid (validateResponse response) = true
      <-> error response = None
          /\ is_Some (data response ≫= rd_data)
          /\ (data response ≫= rd_errors = None \/ data response ≫= rd_errors = Some []))
  /\ (isValid (validateResponse response) = true <-> errors (validateResponse response) = []).
Proof.
  unfold validateResponse.
  destruct (error response) as [e|]; simpl.
  { repeat split; try discriminate; intros H; try discriminate;
      destruct H as [? _]; discriminate. }
  destruct (data response ≫= rd_data) as [d'|]; simpl.
  2:{ repeat split; try discriminate; intros H; try discriminate.
      - destruct H as [_ ?]; discriminate.
      - destruct H as (_ & [? ?] & _); discriminate. }
  split; [|split].
  - split; [intros [= ->]; auto | intros [_ [= ->]]; reflexivity].
  - destruct (data response ≫= rd_errors) as [[|g es]|]; simpl; split; intros H;
      try reflexivity; try discriminate; try (split; [reflexivity|]; split; eauto).
    destruct H as (_ & _ & [?|?]); discriminate.
  - destruct (data response ≫= rd_errors) as [[|g es]|]; simpl; split; intros H;
      try reflexivity; discriminate.
Qed.

(** The check of the fetcher and the validation of the Reconciler agree on
    one thing: [validateGraphQLResponse] calls a response valid exactly
    when [validateResponse] hands on its data. So every response the
    Reconciler calls valid is valid for the fetcher; the converse fails on
    a populated [errors] array. *)
Theorem validateGraphQLResponse_iff_data {P : Type} (response : ItemQueryResult P) :
  (response_isValid (validateGraphQLResponse (Some response)) = true
   <-> is_Some (validated (validateResponse response)))
  /\ (isValid (validateResponse response) = true ->
      response_isValid (validateGraphQLResponse (Some response)) = true)
  /\ (response_isValid (validateGraphQLResponse (Some response)) = true
      <-> response_errors (validateGraphQLResponse (Some response)) = []).
Proof.
  unfold validateGraphQLResponse, validateResponse.
  destruct response as [[[dd errs]|] [e|]]; simpl;
    try destruct dd as [d|]; simpl;
    repeat split; try discriminate; try reflexivity; eauto;
    try (intros [? ?]; discriminate); try (intros ?; discriminate).
Qed.

(** The [errors] arrays of the two envelopes, and whatever data comes with
    an [error], have no influence on the records. *)
Theorem records_ignore_diagnostics
    (authoringData : option (ResponseData AuthoringItemResponse.t))
    (liveData : option (ResponseData LiveItemResponse.t))
    (da : gmap string (option AuthoringItemResponse.t))
    (dl : gmap string (option LiveItemResponse.t))
    (ea ea' el el' : option (list GraphQLError)) (e e' : JsError)
    (itemIds : list string) (cur : option string) :
  processItemData (mkResult (Some (mkResponseData (Some da) ea)) None)
                  (mkResult (Some (mkResponseData (Some dl) el)) None) itemIds cur
  = processItemData (mkResult (Some (mkResponseData (Some da) ea')) None)
                    (mkResult (Some (mkResponseData (Some dl) el')) None) itemIds cur
  /\ processItemData (mkResult authoringData (Some e)) (mkResult liveData (Some e'))
       itemIds cur
     = processItemData (error_envelope e) (error_envelope e') itemIds cur.
Proof.
  split; unfold processItemData; apply imap_ext; intros i x _;
    unfold processItem;
    rewrite ?lookup_payload_success, ?lookup_payload_error; reflexivity.
Qed.

(** When neither envelope yields data, every identifier still gets its
    record, with the defaults throughout. *)
Theorem records_without_data
    (authoring : ItemQueryResult AuthoringItemResponse.t)
    (live : ItemQueryResult LiveItemResponse.t)
    (itemIds : list string) (cur : option string) :
  validated (validateResponse authoring) = None ->
  validated (validateResponse live) = None ->
  processItemData authoring live itemIds cur
  = map (fun itemId =>
           ProcessedItemInfo.mk itemId "Unknown Item" "" 0 None false false 0
             (determineItemType itemId cur) None "en") itemIds.
Proof.
  intros Ha Hl. unfold processItemData.
  apply list_eq. intros i. rewrite list_lookup_imap, list_lookup_fmap.
  destruct (itemIds !! i) as [itemId|]; [|reflexivity]. simpl. f_equal.
  unfold processItem, lookup_payload. rewrite Ha, Hl. reflexivity.
Qed.

Lemma records_without_data_witness :
  processItemData (error_envelope fetch_failed) (mkResult None None) [home_id] None
  = [ProcessedItemInfo.mk home_id "Unknown Item" "" 0 None false false 0
       reference None "en"].
Proof.
  rewrite (records_without_data (error_envelope fetch_failed) (mkResult None None)
             [home_id] None eq_refl eq_refl).
  reflexivity.
Defined.

(** A record of the Reconciler is outdated exactly when it is published
    and its version difference is positive; a published record that is not
    outdated has a version difference of zero or less (the live version
    is ahead of the authoring one). *)
Theorem outdated_iff_behind authoring live itemIds cur r :
  r ∈ processItemData authoring live itemIds cur ->
  (ProcessedItemInfo.isOutdated r = true
   <-> ProcessedItemInfo.isPublished r = true
       /\ (0 < ProcessedItemInfo.versionDifference r)%Z)
  /\ (ProcessedItemInfo.isPublished r = true ->
      ProcessedItemInfo.isOutdated r = false ->
      (ProcessedItemInfo.versionDifference r <= 0)%Z).
Proof.
  intros Hin. apply list_elem_of_lookup in Hin as [i Hi].
  rewrite processItemData_lookup in Hi.
  destruct (itemIds !! i) as [itemId|]; [|discriminate].
  injection Hi as <-. unfold processItem; simpl.
  destruct (num_or_null _) as [pv|]; simpl.
  - destruct (Z.ltb_spec pv (num_or (AuthoringItemResponse.version <$>
        lookup_payload (validateResponse authoring) (item_alias i)) 0)).
    + split; [split|]; [intros _; split; [reflexivity|lia] | reflexivity | discriminate].
    + split; [split|]; [discriminate | intros [_ ?]; lia | intros _ _; lia].
  - split; [split|]; [discriminate | intros [? _]; discriminate | discriminate].
Qed.

Lemma outdated_iff_behind_witness :
  exists r,
    sample_items !! 0 = Some r
    /\ ProcessedItemInfo.isOutdated r = true
    /\ (0 < ProcessedItemInfo.versionDifference r)%Z.
Proof.
  eexists. split; [reflexivity|]. split; [reflexivity|].
  apply (outdated_iff_behind outdated_authoring outdated_live
           [home_id; "9C8262E464564946B04ED5873874615E"] (Some home_id)).
  - apply list_elem_of_lookup. exists 0. reflexivity.
  - reflexivity.
Defined.

(** ** Shape of GUID texts *)

Section GuidFacts.

Import JsString.

Lemma length_append s1 s2 :
  String.length (s1 +:+ s2) = String.length s1 + String.length s2.
Proof.
  induction s1 as [|c s1 IH]; [reflexivity|].
  rewrite append_cons. simpl. now rewrite IH.
Qed.

Lemma append_assoc s1 s2 s3 : (s1 +:+ s2) +:+ s3 = s1 +:+ s2 +:+ s3.
Proof.
  induction s1 as [|c s1 IH]; [reflexivity|].
  rewrite !append_cons. now rewrite IH.
Qed.

Lemma append_nil_r s : s +:+ EmptyString = s.
Proof. induction s as [|c s IH]; [reflexivity|]. rewrite append_cons. now rewrite IH. Qed.

Lemma all_chars_app p s1 s2 :
  all_chars p (s1 +:+ s2) = all_chars p s1 && all_chars p s2.
Proof.
  induction s1 as [|c s1 IH]; [reflexivity|].
  rewrite append_cons. simpl. rewrite IH. now rewrite andb_assoc.
Qed.

Lemma length_map_chars f s : String.length (map_chars f s) = String.length s.
Proof. induction s as [|c s IH]; simpl; [reflexivity | now rewrite IH]. Qed.

Lemma all_chars_map_chars (p q : ascii -> bool) f s :
  (forall c, p c = true -> q (f c) = true) ->
  all_chars p s = true -> all_chars q (map_chars f s) = true.
Proof.
  intros Hpq. induction s as [|c s IH]; simpl; [reflexivity|].
  intros [Hc Hs]%andb_true_iff. rewrite (Hpq c Hc). now apply IH.
Qed.

Lemma filter_chars_all keep s :
  all_chars keep s = true -> filter_chars keep s = s.
Proof.
  induction s as [|c s IH]; simpl; [reflexivity|].
  intros [Hc Hs]%andb_true_iff. rewrite Hc. now rewrite IH.
Qed.

Lemma all_chars_impl (p q : ascii -> bool) s :
  (forall c, p c = true -> q c = true) ->
  all_chars p s = true -> all_chars q s = true.
Proof.
  intros Hpq. induction s as [|c s IH]; simpl; [reflexivity|].
  intros [Hc Hs]%andb_true_iff. rewrite (Hpq c Hc). now apply IH.
Qed.

Lemma map_chars_fixed f s :
  all_chars (fun c => Ascii.eqb (f c) c) s = true -> map_chars f s = s.
Proof.
  induction s as [|c s IH]; simpl; [reflexivity|].
  intros [Hc Hs]%andb_true_iff. apply Ascii.eqb_eq in Hc. rewrite Hc. now rewrite IH.
Qed.

Lemma hex_not_stripped c : is_hex c = true -> negb (is_brace_or_hyphen c) = true.
Proof. destruct c as [[] [] [] [] [] [] [] []]; simpl; intros H; try reflexivity; discriminate H. Qed.

Lemma hex_not_brace c : is_hex c = true -> negb (is_brace c) = true.
Proof. destruct c as [[] [] [] [] [] [] [] []]; simpl; intros H; try reflexivity; discriminate H. Qed.

Lemma hex_upper c : is_hex c = true -> is_upper_hex (upper_char c) = true.
Proof. destruct c as [[] [] [] [] [] [] [] []]; simpl; intros H; try reflexivity; discriminate H. Qed.

Lemma upper_hex_is_hex c : is_upper_hex c = true -> is_hex c = true.
Proof. destruct c as [[] [] [] [] [] [] [] []]; simpl; intros H; try reflexivity; discriminate H. Qed.

Lemma upper_hex_fixed c : is_upper_hex c = true -> Ascii.eqb (upper_char c) c = true.
Proof. destruct c as [[] [] [] [] [] [] [] []]; simpl; intros H; try reflexivity; discriminate H. Qed.

Lemma match_hex_spec n : forall s r,
  match_hex n s = Some r ->
  exists h, s = h +:+ r /\ hex_block n h.
Proof.
  induction n as [|n IH]; intros s r; simpl.
  - intros [= ->]. exists EmptyString. repeat split.
  - destruct s as [|c s]; [discriminate|].
    destruct (is_hex c) eqn:Hc; [|discriminate].
    intros Hm. destruct (IH _ _ Hm) as (h & -> & Hlen & Hall).
    exists (String c h). split; [reflexivity|]. split; simpl; [now rewrite Hlen|].
    now rewrite Hc.
Qed.

Lemma match_hex_block n h r : hex_block n h -> match_hex n (h +:+ r) = Some r.
Proof.
  intros [Hlen Hall]. revert n Hlen.
  induction h as [|c h IH]; intros n Hlen; simpl in *; subst n; [reflexivity|].
  apply andb_true_iff in Hall as [Hc Hh]. rewrite append_cons. simpl.
  rewrite Hc. now apply IH.
Qed.

Lemma match_char_spec c s r : match_char c s = Some r -> s = String c r.
Proof.
  destruct s as [|c' s]; simpl; [discriminate|].
  destruct (Ascii.eqb_spec c' c); [|discriminate]. now intros [= ->]; subst.
Qed.

Lemma match_opt_char_spec c s :
  exists o, s = o +:+ match_opt_char c s
            /\ (o = EmptyString \/ o = String c EmptyString).
Proof.
  unfold match_opt_char. destruct (match_char c s) as [r|] eqn:Hm.
  - apply match_char_spec in Hm as ->. exists (String c EmptyString). auto.
  - exists EmptyString. auto.
Qed.

(** A text that the pattern matches at its head: an optional opening
    brace, five blocks of hexadecimal digits with hyphens between them, an
    optional closing brace, and the rest. *)
Lemma match_guid_rest_shape s rest :
  match_guid_rest s = Some rest ->
  exists o h1 h2 h3 h4 h5 c,
    s = o +:+ hyphenated h1 h2 h3 h4 h5 +:+ c +:+ rest
    /\ (o = EmptyString \/ o = "{") /\ (c = EmptyString \/ c = "}")
    /\ hex_block 8 h1 /\ hex_block 4 h2 /\ hex_block 4 h3
    /\ hex_block 4 h4 /\ hex_block 12 h5
    /\ rest = match_opt_char "}" (c +:+ rest).
Proof.
  unfold match_guid_rest. intros H.
  destruct (match_opt_char_spec "{" s) as (o & Hs & Ho).
  destruct (match_hex 8 _) as [s1|] eqn:H1; [|discriminate]; cbn [mbind option_bind] in H.
  destruct (match_char "-" s1) as [s2|] eqn:H2; [|discriminate]; cbn [mbind option_bind] in H.
  destruct (match_hex 4 s2) as [s3|] eqn:H3; [|discriminate]; cbn [mbind option_bind] in H.
  destruct (match_char "-" s3) as [s4|] eqn:H4; [|discriminate]; cbn [mbind option_bind] in H.
  destruct (match_hex 4 s4) as [s5|] eqn:H5; [|discriminate]; cbn [mbind option_bind] in H.
  destruct (match_char "-" s5) as [s6|] eqn:H6; [|discriminate]; cbn [mbind option_bind] in H.
  destruct (match_hex 4 s6) as [s7|] eqn:H7; [|discriminate]; cbn [mbind option_bind] in H.
  destruct (match_char "-" s7) as [s8|] eqn:H8; [|discriminate]; cbn [mbind option_bind] in H.
  destruct (match_hex 12 s8) as [s9|] eqn:H9; [|discriminate]; cbn [mbind option_bind] in H.
  injection H as <-.
  apply match_hex_spec in H1 as (h1 & E1 & B1).
  apply match_char_spec in H2 as ->.
  apply match_hex_spec in H3 as (h2 & -> & B2).
  apply match_char_spec in H4 as ->.
  apply match_hex_spec in H5 as (h3 & -> & B3).
  apply match_char_spec in H6 as ->.
  apply match_hex_spec in H7 as (h4 & -> & B4).
  apply match_char_spec in H8 as ->.
  apply match_hex_spec in H9 as (h5 & -> & B5).
  destruct (match_opt_char_spec "}" s9) as (c & Hc & Hcc).
  exists o, h1, h2, h3, h4, h5, c.
  split.
  { rewrite Hs at 1. rewrite E1. unfold hyphenated.
    rewrite Hc at 1. rewrite !append_assoc. reflexivity. }
  repeat (split; [assumption|]).
  rewrite <- Hc. reflexivity.
Qed.

Lemma isValidGuid_rest str :
  isValidGuid str
  = match match_guid_rest str with
    | Some rest => is_empty rest
    | None => false
    end.
Proof. reflexivity. Qed.

(** A valid GUID text, as [isValidGuid] accepts it. *)
Lemma isValidGuid_shape str :
  isValidGuid str = true ->
  exists o h1 h2 h3 h4 h5 c,
    str = o +:+ hyphenated h1 h2 h3 h4 h5 +:+ c
    /\ (o = EmptyString \/ o = "{") /\ (c = EmptyString \/ c = "}")
    /\ hex_block 8 h1 /\ hex_block 4 h2 /\ hex_block 4 h3
    /\ hex_block 4 h4 /\ hex_block 12 h5.
Proof.
  rewrite isValidGuid_rest.
  destruct (match_guid_rest str) as [rest|] eqn:Hm; [|discriminate].
  destruct rest; [|discriminate]. intros _.
  destruct (match_guid_rest_shape _ _ Hm)
    as (o & h1 & h2 & h3 & h4 & h5 & c & Hs & Ho & Hc & B1 & B2 & B3 & B4 & B5 & _).
  exists o, h1, h2, h3, h4, h5, c. rewrite append_nil_r in Hs. auto 10.
Qed.

End GuidFacts.

(** ** Identifier Normalizer, continued *)

Lemma formatGuidWithHyphens_unfold g :
  formatGuidWithHyphens g
  = if (String.length (formatGuidWithoutHyphens g) =? 32)%nat
    then hyphenated (JsString.substring 0 8 (formatGuidWithoutHyphens g))
                    (JsString.substring 8 12 (formatGuidWithoutHyphens g))
                    (JsString.substring 12 16 (formatGuidWithoutHyphens g))
                    (JsString.substring 16 20 (formatGuidWithoutHyphens g))
                    (JsString.substring 20 32 (formatGuidWithoutHyphens g))
    else g.
Proof.
  unfold formatGuidWithHyphens, formatGuidWithoutHyphens, hyphenated.
  destruct (String.length _ =? 32)%nat; reflexivity.
Qed.

Lemma formatGuidWithoutHyphens_hyphenated h1 h2 h3 h4 h5 :
  formatGuidWithoutHyphens (hyphenated h1 h2 h3 h4 h5)
  = formatGuidWithoutHyphens (h1 +:+ h2 +:+ h3 +:+ h4 +:+ h5).
Proof.
  unfold hyphenated. rewrite !formatGuidWithoutHyphens_app.
  change (formatGuidWithoutHyphens "-") with EmptyString.
  now rewrite !append_nil_l.
Qed.

(** Hyphenation never changes the canonical form, whatever the text, and
    hyphenating twice is hyphenating once. *)
Theorem hyphenation_keeps_canonical (g : string) :
  formatGuidWithoutHyphens (formatGuidWithHyphens g) = formatGuidWithoutHyphens g
  /\ formatGuidWithHyphens (formatGuidWithHyphens g) = formatGuidWithHyphens g.
Proof.
  assert (Hcanon : formatGuidWithoutHyphens (formatGuidWithHyphens g)
                   = formatGuidWithoutHyphens g).
  { rewrite formatGuidWithHyphens_unfold.
    destruct (String.length (formatGuidWithoutHyphens g) =? 32)%nat eqn:Hlen;
      [|reflexivity].
    apply Nat.eqb_eq in Hlen.
    rewrite formatGuidWithoutHyphens_hyphenated, (slices_32 _ Hlen).
    apply formatGuidWithoutHyphens_idemp. }
  split; [exact Hcanon|].
  rewrite (formatGuidWithHyphens_unfold (formatGuidWithHyphens g)), Hcanon.
  rewrite (formatGuidWithHyphens_unfold g).
  destruct (String.length (formatGuidWithoutHyphens g) =? 32)%nat; reflexivity.
Qed.

Section BlockFacts.

Import JsString.

Lemma substring_prefix a b n :
  String.length a = n -> String.substring 0 n (a +:+ b) = a.
Proof.
  intros <-. induction a as [|c a IH].
  - destruct b; reflexivity.
  - rewrite append_cons. simpl. now rewrite IH.
Qed.

Lemma substring_skip a b n m :
  String.length a = n -> String.substring n m (a +:+ b) = String.substring 0 m b.
Proof.
  intros <-. induction a as [|c a IH]; [reflexivity|].
  rewrite append_cons. simpl. exact IH.
Qed.

Lemma substring_length s : forall n m,
  n + m <= String.length s -> String.length (String.substring n m s) = m.
Proof.
  induction s as [|c s IH]; intros n m Hle; simpl in Hle.
  - assert (n = 0) by lia. assert (m = 0) by lia. subst. reflexivity.
  - destruct n as [|n]; simpl.
    + destruct m as [|m]; [reflexivity|]. simpl. rewrite (IH 0 m); [reflexivity|lia].
    + apply IH. lia.
Qed.

Lemma all_chars_substring p s : forall n m,
  all_chars p s = true -> all_chars p (String.substring n m s) = true.
Proof.
  induction s as [|c s IH]; intros n m Hall; simpl in Hall.
  - destruct n, m; reflexivity.
  - apply andb_true_iff in Hall as [Hc Hs].
    destruct n as [|n]; simpl.
    + destruct m as [|m]; [reflexivity|]. simpl. rewrite Hc. now apply IH.
    + now apply IH.
Qed.

Lemma hex_block_upper n h : hex_block n h -> hex_block n (toUpperCase h).
Proof.
  intros [Hlen Hall]. split.
  - unfold toUpperCase. now rewrite length_map_chars.
  - unfold toUpperCase. apply (all_chars_map_chars is_hex); [|exact Hall].
    intros c Hc. apply upper_hex_is_hex. now apply hex_upper.
Qed.

Lemma hex_block_strip n h : hex_block n h -> strip_braces_hyphens h = h.
Proof.
  intros [_ Hall]. apply filter_chars_all.
  apply (all_chars_impl is_hex); [apply hex_not_stripped | exact Hall].
Qed.

Lemma hex_block_strip_braces n h : hex_block n h -> strip_braces h = h.
Proof.
  intros [_ Hall]. apply filter_chars_all.
  apply (all_chars_impl is_hex); [apply hex_not_brace | exact Hall].
Qed.

Lemma toUpperCase_hyphenated h1 h2 h3 h4 h5 :
  toUpperCase (hyphenated h1 h2 h3 h4 h5)
  = hyphenated (toUpperCase h1) (toUpperCase h2) (toUpperCase h3)
               (toUpperCase h4) (toUpperCase h5).
Proof. unfold hyphenated, toUpperCase. now rewrite !map_chars_app. Qed.

(** The five slices of the concatenation of five blocks are the blocks. *)
Lemma slices_of_blocks h1 h2 h3 h4 h5 :
  hex_block 8 h1 -> hex_block 4 h2 -> hex_block 4 h3 ->
  hex_block 4 h4 -> hex_block 12 h5 ->
  let clean := h1 +:+ h2 +:+ h3 +:+ h4 +:+ h5 in
  String.length clean = 32
  /\ substring 0 8 clean = h1 /\ substring 8 12 clean = h2
  /\ substring 12 16 clean = h3 /\ substring 16 20 clean = h4
  /\ substring 20 32 clean = h5.
Proof.
  intros [L1 _] [L2 _] [L3 _] [L4 _] [L5 _] clean. subst clean.
  unfold substring. simpl Nat.sub.
  split; [rewrite !length_append; lia|].
  split; [now apply substring_prefix|].
  split; [rewrite (substring_skip h1 _ 8 4 L1); now apply substring_prefix|].
  split.
  { rewrite <- (append_assoc h1 h2).
    rewrite (substring_skip (h1 +:+ h2) _ 12 4) by (rewrite length_append; lia).
    now apply substring_prefix. }
  split.
  { rewrite <- (append_assoc h1 h2), <- (append_assoc (h1 +:+ h2) h3).
    rewrite (substring_skip ((h1 +:+ h2) +:+ h3) _ 16 4)
      by (rewrite !length_append; lia).
    now apply substring_prefix. }
  rewrite <- (append_assoc h1 h2), <- (append_assoc (h1 +:+ h2) h3),
          <- (append_assoc ((h1 +:+ h2) +:+ h3) h4).
  rewrite (substring_skip (((h1 +:+ h2) +:+ h3) +:+ h4) _ 20 12)
    by (rewrite !length_append; lia).
  rewrite <- L5. apply substring_all.
Qed.

Lemma strip_optional_brace o :
  o = EmptyString \/ o = "{" \/ o = "}" ->
  strip_braces_hyphens o = EmptyString /\ strip_braces o = EmptyString.
Proof. intros [-> | [-> | ->]]; split; reflexivity. Qed.

Lemma strip_braces_hyphens_shape o h1 h2 h3 h4 h5 c :
  (o = EmptyString \/ o = "{") -> (c = EmptyString \/ c = "}") ->
  hex_block 8 h1 -> hex_block 4 h2 -> hex_block 4 h3 ->
  hex_block 4 h4 -> hex_block 12 h5 ->
  strip_braces_hyphens (o +:+ hyphenated h1 h2 h3 h4 h5 +:+ c)
  = h1 +:+ h2 +:+ h3 +:+ h4 +:+ h5.
Proof.
  intros Ho Hc B1 B2 B3 B4 B5. unfold hyphenated, strip_braces_hyphens.
  rewrite !filter_chars_app.
  fold (strip_braces_hyphens o) (strip_braces_hyphens c)
       (strip_braces_hyphens h1) (strip_braces_hyphens h2) (strip_braces_hyphens h3)
       (strip_braces_hyphens h4) (strip_braces_hyphens h5).
  rewrite (hex_block_strip _ _ B1), (hex_block_strip _ _ B2), (hex_block_strip _ _ B3),
          (hex_block_strip _ _ B4), (hex_block_strip _ _ B5).
  destruct (strip_optional_brace o) as [-> _]; [tauto|].
  destruct (strip_optional_brace c) as [-> _]; [tauto|].
  change (filter_chars (fun c0 => negb (is_brace_or_hyphen c0)) "-") with EmptyString.
  now rewrite !append_nil_l, append_nil_r.
Qed.

Lemma strip_braces_shape o h1 h2 h3 h4 h5 c :
  (o = EmptyString \/ o = "{") -> (c = EmptyString \/ c = "}") ->
  hex_block 8 h1 -> hex_block 4 h2 -> hex_block 4 h3 ->
  hex_block 4 h4 -> hex_block 12 h5 ->
  strip_braces (o +:+ hyphenated h1 h2 h3 h4 h5 +:+ c) = hyphenated h1 h2 h3 h4 h5.
Proof.
  intros Ho Hc B1 B2 B3 B4 B5. unfold hyphenated, strip_braces.
  rewrite !filter_chars_app.
  fold (strip_braces o) (strip_braces c)
       (strip_braces h1) (strip_braces h2) (strip_braces h3)
       (strip_braces h4) (strip_braces h5).
  rewrite (hex_block_strip_braces _ _ B1), (hex_block_strip_braces _ _ B2),
          (hex_block_strip_braces _ _ B3), (hex_block_strip_braces _ _ B4),
          (hex_block_strip_braces _ _ B5).
  destruct (strip_optional_brace o) as [_ ->]; [tauto|].
  destruct (strip_optional_brace c) as [_ ->]; [tauto|].
  change (filter_chars (fun c0 => negb (is_brace c0)) "-") with "-".
  now rewrite !append_nil_l, append_nil_r.
Qed.

Lemma match_opt_char_hex n h r :
  hex_block (S n) h -> match_opt_char "{" (h +:+ r) = h +:+ r.
Proof.
  intros [Hlen Hall]. destruct h as [|c h]; [discriminate|].
  simpl in Hall. apply andb_true_iff in Hall as [Hc _].
  rewrite append_cons. unfold match_opt_char, match_char.
  destruct (Ascii.eqb_spec c "{") as [->|]; [discriminate Hc | reflexivity].
Qed.

Lemma match_guid_rest_hyphenated h1 h2 h3 h4 h5 r :
  hex_block 8 h1 -> hex_block 4 h2 -> hex_block 4 h3 ->
  hex_block 4 h4 -> hex_block 12 h5 ->
  match_guid_rest (hyphenated h1 h2 h3 h4 h5 +:+ r) = Some (match_opt_char "}" r).
Proof.
  intros B1 B2 B3 B4 B5. unfold match_guid_rest, hyphenated.
  rewrite !append_assoc.
  rewrite (match_opt_char_hex 7 h1 _ B1), (match_hex_block 8 h1 _ B1).
  cbn [mbind option_bind]. rewrite append_cons, append_nil_l.
  cbn [match_char Ascii.eqb Bool.eqb andb]. cbn [mbind option_bind].
  rewrite (match_hex_block 4 h2 _ B2).
  cbn [mbind option_bind]. rewrite append_cons, append_nil_l.
  cbn [match_char Ascii.eqb Bool.eqb andb]. cbn [mbind option_bind].
  rewrite (match_hex_block 4 h3 _ B3).
  cbn [mbind option_bind]. rewrite append_cons, append_nil_l.
  cbn [match_char Ascii.eqb Bool.eqb andb]. cbn [mbind option_bind].
  rewrite (match_hex_block 4 h4 _ B4).
  cbn [mbind option_bind]. rewrite append_cons, append_nil_l.
  cbn [match_char Ascii.eqb Bool.eqb andb]. cbn [mbind option_bind].
  rewrite (match_hex_block 12 h5 _ B5).
  reflexivity.
Qed.

Lemma isValidGuid_blocks h1 h2 h3 h4 h5 :
  hex_block 8 h1 -> hex_block 4 h2 -> hex_block 4 h3 ->
  hex_block 4 h4 -> hex_block 12 h5 ->
  isValidGuid (hyphenated h1 h2 h3 h4 h5) = true.
Proof.
  intros B1 B2 B3 B4 B5. rewrite isValidGuid_rest.
  rewrite <- (append_nil_r (hyphenated h1 h2 h3 h4 h5)).
  now rewrite (match_guid_rest_hyphenated h1 h2 h3 h4 h5 "" B1 B2 B3 B4 B5).
Qed.

Lemma length_hyphenated h1 h2 h3 h4 h5 :
  hex_block 8 h1 -> hex_block 4 h2 -> hex_block 4 h3 ->
  hex_block 4 h4 -> hex_block 12 h5 ->
  String.length (hyphenated h1 h2 h3 h4 h5) = 36.
Proof.
  intros [L1 _] [L2 _] [L3 _] [L4 _] [L5 _]. unfold hyphenated.
  rewrite !length_append. simpl. lia.
Qed.

End BlockFacts.

Lemma canonical_fixed (id : string) :
  is_canonical id = true -> formatGuidWithoutHyphens id = id.
Proof.
  unfold is_canonical. intros [_ Hall]%andb_true_iff.
  unfold formatGuidWithoutHyphens, strip_braces_hyphens, JsString.toUpperCase.
  rewrite filter_chars_all
    by (apply (all_chars_impl is_upper_hex); [|exact Hall];
        intros c Hc; apply hex_not_stripped, upper_hex_is_hex, Hc).
  apply map_chars_fixed.
  apply (all_chars_impl is_upper_hex); [apply upper_hex_fixed | exact Hall].
Qed.

(** The canonical form of a valid GUID text is a canonical identifier: 32
    characters of [0-9A-F]. *)
Lemma normalizeItemId_valid (ds : string) :
  isValidGuid ds = true -> is_canonical (normalizeItemId ds) = true.
Proof.
  intros Hv.
  destruct (isValidGuid_shape ds Hv)
    as (o & h1 & h2 & h3 & h4 & h5 & c & -> & Ho & Hc & B1 & B2 & B3 & B4 & B5).
  unfold normalizeItemId.
  rewrite (strip_braces_hyphens_shape o h1 h2 h3 h4 h5 c Ho Hc B1 B2 B3 B4 B5).
  unfold is_canonical, JsString.toUpperCase.
  rewrite length_map_chars.
  destruct (slices_of_blocks h1 h2 h3 h4 h5 B1 B2 B3 B4 B5) as [-> _]. simpl.
  apply (all_chars_map_chars is_hex); [apply hex_upper|].
  destruct B1 as [_ A1], B2 as [_ A2], B3 as [_ A3], B4 as [_ A4], B5 as [_ A5].
  now rewrite !all_chars_app, A1, A2, A3, A4, A5.
Qed.

(** For a valid GUID text, braced or not, in either case: the display form
    is the text without its braces in upper case, a valid GUID text of 36
    characters. *)
Theorem valid_guid_display (ds : string) :
  isValidGuid ds = true ->
  formatGuidWithHyphens ds = JsString.toUpperCase (strip_braces ds)
  /\ isValidGuid (formatGuidWithHyphens ds) = true
  /\ String.length (formatGuidWithHyphens ds) = 36.
Proof.
  intros Hv.
  destruct (isValidGuid_shape ds Hv)
    as (o & h1 & h2 & h3 & h4 & h5 & c & -> & Ho & Hc & B1 & B2 & B3 & B4 & B5).
  pose proof (hex_block_upper _ _ B1) as U1. pose proof (hex_block_upper _ _ B2) as U2.
  pose proof (hex_block_upper _ _ B3) as U3. pose proof (hex_block_upper _ _ B4) as U4.
  pose proof (hex_block_upper _ _ B5) as U5.
  assert (Hfmt : formatGuidWithHyphens (o +:+ hyphenated h1 h2 h3 h4 h5 +:+ c)
                 = hyphenated (JsString.toUpperCase h1) (JsString.toUpperCase h2)
                     (JsString.toUpperCase h3) (JsString.toUpperCase h4)
                     (JsString.toUpperCase h5)).
  { rewrite formatGuidWithHyphens_unfold. unfold formatGuidWithoutHyphens.
    rewrite (strip_braces_hyphens_shape o h1 h2 h3 h4 h5 c Ho Hc B1 B2 B3 B4 B5).
    unfold JsString.toUpperCase at 1 2 3 4 5 6. rewrite !map_chars_app.
    fold (JsString.toUpperCase h1) (JsString.toUpperCase h2) (JsString.toUpperCase h3)
         (JsString.toUpperCase h4) (JsString.toUpperCase h5).
    destruct (slices_of_blocks _ _ _ _ _ U1 U2 U3 U4 U5)
      as (-> & -> & -> & -> & -> & ->).
    reflexivity. }
  rewrite Hfmt. split; [|split].
  - rewrite (strip_braces_shape o h1 h2 h3 h4 h5 c Ho Hc B1 B2 B3 B4 B5).
    now rewrite toUpperCase_hyphenated.
  - now apply isValidGuid_blocks.
  - now apply length_hyphenated.
Qed.

Lemma valid_guid_display_witness :
  formatGuidWithHyphens "{5ed52178-8f06-49be-9d4c-f191e650189e}"
  = "5ED52178-8F06-49BE-9D4C-F191E650189E".
Proof.
  destruct (valid_guid_display "{5ed52178-8f06-49be-9d4c-f191e650189e}" eq_refl)
    as [-> _].
  reflexivity.
Defined.

(** A canonical identifier formatted for the live endpoint is a valid GUID
    text, and its canonical form is the identifier again. *)
Theorem canonical_for_live (id : string) :
  is_canonical id = true ->
  isValidGuid (formatGuidForLive id) = true
  /\ String.length (formatGuidForLive id) = 36
  /\ formatGuidWithoutHyphens (formatGuidForLive id) = id.
Proof.
  intros Hcan. pose proof (canonical_fixed id Hcan) as Hfix.
  unfold is_canonical in Hcan. apply andb_true_iff in Hcan as [Hlen Hall].
  apply Nat.eqb_eq in Hlen.
  assert (Hhex : JsString.all_chars is_hex id = true)
    by (apply (all_chars_impl is_upper_hex); [apply upper_hex_is_hex | exact Hall]).
  unfold formatGuidForLive. rewrite formatGuidWithHyphens_unfold, Hfix, Hlen.
  simpl Nat.eqb. cbv iota.
  assert (Hblock : forall a n, a + n <= 32 ->
            hex_block n (String.substring a n id)).
  { intros a n Hle. split.
    - apply substring_length. lia.
    - now apply all_chars_substring. }
  unfold JsString.substring. simpl Nat.sub.
  split; [apply isValidGuid_blocks; apply Hblock; lia|].
  split; [apply length_hyphenated; apply Hblock; lia|].
  rewrite formatGuidWithoutHyphens_hyphenated.
  pose proof (slices_32 id Hlen) as Hs. unfold JsString.substring in Hs.
  simpl Nat.sub in Hs. now rewrite Hs.
Qed.

Lemma canonical_for_live_witness :
  isValidGuid (formatGuidForLive home_id) = true.
Proof. apply (canonical_for_live home_id). reflexivity. Defined.

(** ** Datasource Expression Parser, continued *)

Lemma parseSegment_canonical acc ds :
  Forall (fun id => is_canonical id = true) (directIds acc) ->
  Forall (fun id => is_canonical id = true) (directIds (parseSegment acc ds)).
Proof.
  intros Hacc. unfold parseSegment.
  destruct (isValidGuid ds) eqn:Hv; simpl.
  - apply Forall_app. split; [exact Hacc|].
    apply Forall_singleton. now apply normalizeItemId_valid.
  - repeat (destruct (JsString.startsWith _ _); simpl; try exact Hacc).
Qed.

Lemma parser_canonical (datasource : JsValue) :
  Forall (fun id => is_canonical id = true) (directIds (parseDatasourceValue datasource)).
Proof.
  unfold parseDatasourceValue.
  destruct datasource; try apply Forall_nil_2.
  destruct (JsString.is_empty s); [apply Forall_nil_2|].
  generalize (List.filter (fun ds => negb (JsString.is_empty ds))
                (map JsString.trim (JsString.split "|" s))).
  intros segments.
  assert (Hgen : forall acc,
            Forall (fun id => is_canonical id = true) (directIds acc) ->
            Forall (fun id => is_canonical id = true)
                   (directIds (foldl parseSegment acc segments))).
  { induction segments as [|x l IH]; intros acc Hacc; simpl; [exact Hacc|].
    apply IH. now apply parseSegment_canonical. }
  apply Hgen. apply Forall_nil_2.
Qed.

(** Every direct identifier the parser returns is canonical: 32 characters
    of [0-9A-F], a fixed point of the canonical form. *)
Theorem parser_ids_canonical (datasource : JsValue) (id : string) :
  id ∈ directIds (parseDatasourceValue datasource) ->
  is_canonical id = true /\ formatGuidWithoutHyphens id = id.
Proof.
  intros Hin.
  pose proof (proj1 (Forall_forall _ _) (parser_canonical datasource) id Hin) as Hcan.
  split; [exact Hcan | now apply canonical_fixed].
Qed.

Lemma parser_ids_canonical_witness :
  is_canonical "AAAAAAAABBBBCCCCDDDDEEEEEEEEEEEE" = true.
Proof.
  apply (parser_ids_canonical
           (JStr "{aaaaaaaa-bbbb-cccc-dddd-eeeeeeeeeeee}|local:/Data/Text 1")).
  vm_compute. left.
Defined.

(** ** Context Graph Walker, continued *)

Lemma elem_of_push_all_unique (xs : list string) : forall (l : list string) x,
  x ∈ push_all_unique l xs <-> x ∈ l \/ x ∈ xs.
Proof.
  unfold push_all_unique.
  induction xs as [|y xs IH]; intros l x; simpl.
  - split; [now left | intros [?|H]; [assumption | now apply not_elem_of_nil in H]].
  - rewrite IH. unfold push_unique. case_bool_decide as Hy.
    + rewrite elem_of_cons. split; [tauto|]. intros [?|[->|?]]; tauto.
    + rewrite elem_of_app, list_elem_of_singleton, elem_of_cons. tauto.
Qed.

Lemma push_all_unique_Forall (P : string -> Prop) (l xs : list string) :
  Forall P l -> Forall P xs -> Forall P (push_all_unique l xs).
Proof.
  rewrite !Forall_forall. intros Hl Hxs x Hx.
  apply elem_of_push_all_unique in Hx as [?|?]; auto.
Qed.

Section WalkInvariant.

Variable I : ParsedDatasource -> Prop.

Lemma walk_keeps_ret {A} (a : A) : walk_keeps I (walk_ret a).
Proof. intros acc H. exact H. Qed.

Lemma walk_keeps_throw {A} : walk_keeps I (@walk_throw A).
Proof. intros acc H. exact H. Qed.

Lemma walk_keeps_bind {A B} (m : Walk A) (k : A -> Walk B) :
  walk_keeps I m -> (forall a, walk_keeps I (k a)) -> walk_keeps I (walk_bind m k).
Proof.
  intros Hm Hk acc Hacc. unfold walk_bind.
  specialize (Hm acc Hacc). destruct (m acc) as [[a|] acc']; simpl in *.
  - now apply Hk.
  - exact Hm.
Qed.

Lemma walk_keeps_prop v k : walk_keeps I (walk_prop v k).
Proof.
  unfold walk_prop. destruct (getProp v k); [apply walk_keeps_ret | apply walk_keeps_throw].
Qed.

Lemma walk_keeps_for body xs :
  (forall x, walk_keeps I (body x)) -> walk_keeps I (walk_for body xs).
Proof.
  intros Hbody. induction xs as [|x xs IH]; simpl.
  - apply walk_keeps_ret.
  - apply walk_keeps_bind; [apply Hbody | intros _; exact IH].
Qed.

Hypothesis collect_keeps : forall parsed, walk_keeps I (walk_collect (parseDatasourceValue parsed)).

Lemma walk_keeps_rendering rendering : walk_keeps I (walk_rendering rendering).
Proof.
  unfold walk_rendering.
  apply walk_keeps_bind; [apply walk_keeps_prop|]. intros ds1.
  apply walk_keeps_bind; [apply walk_keeps_prop|]. intros ds2.
  destruct (truthy (js_or ds1 ds2)); [apply collect_keeps | apply walk_keeps_ret].
Qed.

Lemma walk_keeps_renderings owner : walk_keeps I (walk_renderings owner).
Proof.
  unfold walk_renderings.
  apply walk_keeps_bind; [apply walk_keeps_prop|]. intros rs.
  destruct rs; try apply walk_keeps_ret.
  apply walk_keeps_for. apply walk_keeps_rendering.
Qed.

Lemma walk_keeps_device device : walk_keeps I (walk_device device).
Proof.
  unfold walk_device.
  apply walk_keeps_bind; [apply walk_keeps_renderings|]. intros _.
  apply walk_keeps_bind; [apply walk_keeps_prop|]. intros ps.
  destruct ps; try apply walk_keeps_ret.
  apply walk_keeps_for. apply walk_keeps_renderings.
Qed.

Lemma walk_keeps_details JSON_parse presentationDetails :
  walk_keeps I (walk_details JSON_parse presentationDetails).
Proof.
  unfold walk_details.
  apply walk_keeps_bind.
  - destruct presentationDetails; try apply walk_keeps_ret.
    destruct (JSON_parse s); [apply walk_keeps_ret | apply walk_keeps_throw].
  - intros details.
    apply walk_keeps_bind; [apply walk_keeps_prop|]. intros devices.
    destruct devices; try apply walk_keeps_ret.
    apply walk_keeps_for. apply walk_keeps_device.
Qed.

End WalkInvariant.

Lemma walk_collect_well_collected (datasource : JsValue) :
  walk_keeps well_collected (walk_collect (parseDatasourceValue datasource)).
Proof.
  intros acc (Hd & Hl & Hc). unfold walk_collect, well_collected; simpl.
  split; [now apply push_all_unique_NoDup|].
  split; [now apply push_all_unique_NoDup|].
  apply push_all_unique_Forall; [exact Hc | apply parser_canonical].
Qed.

Lemma collected_well_collected JSON_parse pageContext :
  well_collected (collected JSON_parse pageContext).
Proof.
  assert (H0 : well_collected no_datasources).
  { repeat split; try apply NoDup_nil_2. apply Forall_nil_2. }
  unfold collected.
  destruct (_ && truthy _); [|exact H0].
  unfold extractDatasourcesFromPresentationDetails.
  destruct (negb _); [exact H0|].
  apply (walk_keeps_details well_collected walk_collect_well_collected); exact H0.
Qed.

(** What the walker returns, whatever the context and whether or not the
    walk of the presentation details throws: local paths without repeats,
    and identifiers that are all fixed points of the canonical form (no
    brace, no hyphen, no lower-case letter). *)
Theorem walker_output_canonical (JSON_parse : string -> option JsValue)
    (pageContext : JsValue) :
  NoDup (localPathsToResolve (extractItemIdsWithLocalPaths JSON_parse pageContext))
  /\ Forall (fun id => formatGuidWithoutHyphens id = id)
            (itemIds (extractItemIdsWithLocalPaths JSON_parse pageContext)).
Proof.
  destruct (collected_well_collected JSON_parse pageContext) as (Hd & Hl & Hc).
  assert (H0 : Forall (fun id => formatGuidWithoutHyphens id = id)
                 (push_all_unique [] (directIds (collected JSON_parse pageContext)))).
  { apply push_all_unique_Forall; [apply Forall_nil_2|].
    eapply Forall_impl; [exact Hc|]. intros id. apply canonical_fixed. }
  assert (Hadd : forall s,
            Forall (fun id => formatGuidWithoutHyphens id = id)
              (add_current_first
                 (push_all_unique [] (directIds (collected JSON_parse pageContext))) s)).
  { intros s. unfold add_current_first, unshift_unique.
    case_bool_decide; [exact H0|]. apply Forall_cons. split; [|exact H0].
    apply formatGuidWithoutHyphens_idemp. }
  rewrite extractItemIdsWithLocalPaths_unfold.
  destruct (negb (truthy pageContext && is_object pageContext));
    [split; [apply NoDup_nil_2 | apply Forall_nil_2]|].
  cbv zeta.
  destruct (negb (length (localPaths (collected JSON_parse pageContext)) =? 0)%nat); simpl.
  - split; [exact Hl|]. destruct (truthy_string _); [apply Hadd | exact H0].
  - destruct (truthy_string _); simpl;
      (split; [apply NoDup_nil_2|]); [apply Hadd | apply Forall_nil_2].
Qed.

(** ** References in item fields *)

Lemma match_guid_here_shape s m :
  match_guid_here s = Some m ->
  exists o h1 h2 h3 h4 h5 c,
    m = o +:+ hyphenated h1 h2 h3 h4 h5 +:+ c
    /\ (o = EmptyString \/ o = "{") /\ (c = EmptyString \/ c = "}")
    /\ hex_block 8 h1 /\ hex_block 4 h2 /\ hex_block 4 h3
    /\ hex_block 4 h4 /\ hex_block 12 h5.
Proof.
  unfold match_guid_here.
  destruct (match_guid_rest s) as [rest|] eqn:Hm; [|discriminate].
  cbn [mbind option_bind]. intros [= <-].
  destruct (match_guid_rest_shape _ _ Hm)
    as (o & h1 & h2 & h3 & h4 & h5 & c & Hs & Ho & Hc & B1 & B2 & B3 & B4 & B5 & _).
  exists o, h1, h2, h3, h4, h5, c.
  split; [|auto 10].
  rewrite Hs at 2.
  replace (o +:+ hyphenated h1 h2 h3 h4 h5 +:+ c +:+ rest)
    with ((o +:+ hyphenated h1 h2 h3 h4 h5 +:+ c) +:+ rest)
    by (now rewrite !append_assoc).
  apply substring_prefix.
  rewrite Hs at 1. rewrite !length_append. lia.
Qed.

Lemma scan_guids_elem m : forall s skip,
  m ∈ scan_guids skip s -> exists s', match_guid_here s' = Some m.
Proof.
  induction s as [|c s IH]; intros skip Hin; simpl in Hin.
  - now apply not_elem_of_nil in Hin.
  - destruct skip as [|k]; [|now apply (IH k)].
    destruct (match_guid_here (String c s)) as [m'|] eqn:Hm.
    + apply elem_of_cons in Hin as [->|Hin]; [eauto | now apply (IH _ Hin)].
    + now apply (IH 0).
Qed.

Lemma clean_reference_shape o h1 h2 h3 h4 h5 c :
  (o = EmptyString \/ o = "{") -> (c = EmptyString \/ c = "}") ->
  hex_block 8 h1 -> hex_block 4 h2 -> hex_block 4 h3 ->
  hex_block 4 h4 -> hex_block 12 h5 ->
  isValidGuid (clean_reference (o +:+ hyphenated h1 h2 h3 h4 h5 +:+ c)) = true
  /\ String.length (clean_reference (o +:+ hyphenated h1 h2 h3 h4 h5 +:+ c)) = 36.
Proof.
  intros Ho Hc B1 B2 B3 B4 B5. unfold clean_reference.
  rewrite (strip_braces_shape o h1 h2 h3 h4 h5 c Ho Hc B1 B2 B3 B4 B5).
  rewrite toUpperCase_hyphenated.
  split; [apply isValidGuid_blocks | apply length_hyphenated];
    now apply hex_block_upper.
Qed.

(** The references found in the fields of an item are valid GUID texts of
    36 characters, hyphens kept, none of them twice; an item without
    fields has none. *)
Theorem references_are_hyphenated (item : AuthoringItemWithFields) :
  NoDup (extractDatasourceReferences item)
  /\ Forall (fun r => isValidGuid r = true /\ String.length r = 36
                       /\ is_canonical r = false)
            (extractDatasourceReferences item)
  /\ (item_nodes item = None -> extractDatasourceReferences item = []).
Proof.
  unfold extractDatasourceReferences.
  destruct (item_nodes item) as [nodes|];
    [|split; [apply NoDup_nil_2 | split; [apply Forall_nil_2 | reflexivity]]].
  assert (Hgen : forall acc,
            NoDup acc ->
            Forall (fun r => isValidGuid r = true /\ String.length r = 36) acc ->
            let out := foldl (fun references field =>
                                push_all_unique references
                                  (map clean_reference (scan_guids 0 (field_value field))))
                             acc nodes in
            NoDup out
            /\ Forall (fun r => isValidGuid r = true /\ String.length r = 36) out).
  { induction nodes as [|f nodes IH]; intros acc Hnd Hall; simpl; [now split|].
    apply IH; [now apply push_all_unique_NoDup|].
    apply push_all_unique_Forall; [exact Hall|].
    apply Forall_forall. intros r Hr.
    apply list_elem_of_fmap in Hr as (m & -> & Hm).
    destruct (scan_guids_elem _ _ _ Hm) as [s' Hs'].
    destruct (match_guid_here_shape _ _ Hs')
      as (o & h1 & h2 & h3 & h4 & h5 & c & -> & Ho & Hc & B1 & B2 & B3 & B4 & B5).
    now apply clean_reference_shape. }
  destruct (Hgen [] (NoDup_nil_2) (Forall_nil_2 _)) as [Hnd Hall].
  split; [exact Hnd|]. split; [|discriminate].
  eapply Forall_impl; [exact Hall|]. intros r [Hv Hlen].
  split; [exact Hv|]. split; [exact Hlen|].
  unfold is_canonical. now rewrite Hlen.
Qed.

(** The related items are the identifiers of the context first, in their
    order, then the references not yet among them; nothing twice. *)
Theorem related_items_extend_context (JSON_parse : string -> option JsValue)
    (pageContext : JsValue) (authoringItem : option AuthoringItemWithFields) :
  NoDup (extractAllRelatedItems JSON_parse pageContext authoringItem)
  /\ extractItemIds JSON_parse pageContext
     `prefix_of` extractAllRelatedItems JSON_parse pageContext authoringItem
  /\ (forall id,
        id ∈ extractAllRelatedItems JSON_parse pageContext authoringItem
        <-> id ∈ extractItemIds JSON_parse pageContext
            \/ exists item, authoringItem = Some item
                            /\ id ∈ extractDatasourceReferences item).
Proof.
  unfold extractAllRelatedItems, extractItemIds.
  pose proof (extracted_ids_unique JSON_parse pageContext) as Hnd.
  set (ids := itemIds (extractItemIdsWithLocalPaths JSON_parse pageContext)) in *.
  assert (Hsame : push_all_unique [] ids = ids).
  { assert (Hgen : forall acc, NoDup (acc ++ ids) ->
                     push_all_unique acc ids = (acc ++ ids)%list).
    { clear Hnd. unfold push_all_unique.
      induction ids as [|x l IH]; intros acc Hnd; simpl.
      - now rewrite app_nil_r.
      - unfold push_unique at 2. case_bool_decide as Hx.
        + exfalso. apply NoDup_app in Hnd as (_ & Hdis & _).
          apply (Hdis x Hx). now left.
        + rewrite IH; [now rewrite <- app_assoc|]. now rewrite <- app_assoc. }
    apply (Hgen []). exact Hnd. }
  rewrite Hsame.
  assert (Hpre : forall xs (l : list string), l `prefix_of` push_all_unique l xs).
  { unfold push_all_unique.
    induction xs as [|x xs IH]; intros l; simpl; [reflexivity|].
    unfold push_unique at 2. case_bool_decide; [apply IH|].
    etransitivity; [|apply IH]. now apply prefix_app_r. }
  destruct authoringItem as [item|].
  - split; [now apply push_all_unique_NoDup|]. split; [apply Hpre|].
    intros id. rewrite elem_of_push_all_unique. split.
    + intros [?|?]; [now left | right; eauto].
    + intros [?|(item' & [= <-] & ?)]; [now left | now right].
  - split; [exact Hnd|]. split; [reflexivity|].
    intros id. split; [now left|]. intros [?|(item' & Hitem & _)]; [assumption|discriminate].
Qed.

(** ** Preview endpoint *)

(** [getItemsFromPreview] behaves as [getItemsFromAuthoring] does: with a
    client, a non-empty list and no context token it rejects; in every
    other case it resolves, to the empty success envelope without a client
    or without identifiers, and otherwise to what the client's call
    resolved to or to the error envelope of its rejection. *)
Theorem preview_containment {P : Type}
    (client : option (ClientSDK P)) (itemIds : list string)
    (sitecoreContextId : option string) :
  (client = None \/ itemIds = [] ->
   getItemsFromPreview client itemIds sitecoreContextId = Resolved empty_envelope)
  /\ (forall c ctx,
        client = Some c -> itemIds <> [] -> truthy_str sitecoreContextId = Some ctx ->
        getItemsFromPreview client itemIds sitecoreContextId
        = match mutate c "xmc.preview.graphql" ctx (JsString.trim (preview_query itemIds)) with
          | Resolved result => Resolved result
          | Rejected e => Resolved (error_envelope e)
          end)
  /\ (client <> None -> itemIds <> [] -> truthy_str sitecoreContextId = None ->
      getItemsFromPreview client itemIds sitecoreContextId
      = Rejected (new_Error "sitecoreContextId is required for preview GraphQL queries")).
Proof.
  unfold getItemsFromPreview. split; [|split].
  - intros [-> | ->]; [reflexivity | now destruct client].
  - intros c ctx -> Hids Hctx. destruct itemIds; [congruence|]. now rewrite Hctx.
  - intros Hc Hids Hctx. destruct client; [|congruence].
    destruct itemIds; [congruence|]. now rewrite Hctx.
Qed.

Lemma preview_containment_witness :
  getItemsFromPreview (P := LiveItemResponse.t) (Some failing_client) [home_id]
    (Some "ctx")
  = Resolved (error_envelope fetch_failed).
Proof.
  destruct (preview_containment (P := LiveItemResponse.t) (Some failing_client)
              [home_id] (Some "ctx")) as (_ & Hcall & _).
  rewrite (Hcall failing_client "ctx" eq_refl); [reflexivity | discriminate | reflexivity].
Defined.

(** ** Local Path Resolver, continued *)

Lemma prefix_append pat s : String.prefix pat (pat +:+ s) = true.
Proof.
  induction pat as [|c pat IH]; [now destruct s|].
  rewrite append_cons. simpl. destruct (ascii_dec c c); [exact IH | congruence].
Qed.

Lemma substring_from_append pat s :
  JsString.substring_from (String.length pat) (pat +:+ s) = s.
Proof.
  induction pat as [|c pat IH]; [now destruct s|].
  rewrite append_cons. simpl. exact IH.
Qed.

Lemma remove_first_unfold pat s :
  remove_first pat s
  = if String.prefix pat s then JsString.substring_from (String.length pat) s
    else match s with
         | EmptyString => EmptyString
         | String c s' => String c (remove_first pat s')
         end.
Proof. destruct s; reflexivity. Qed.

Lemma remove_first_absent pat s : contains pat s = false -> remove_first pat s = s.
Proof.
  assert (Hunfold : forall s',
            contains pat s'
            = String.prefix pat s'
              || match s' with
                 | EmptyString => false
                 | String _ s'' => contains pat s''
                 end) by (intros []; reflexivity).
  induction s as [|c s IH]; intros H; rewrite Hunfold in H;
    apply orb_false_iff in H as [Hp Hs]; rewrite remove_first_unfold, Hp.
  - reflexivity.
  - now rewrite IH.
Qed.

(** The absolute path of a local path: a leading [Data/] is taken off
    before [/Data/] is put between the base path and the rest, and a path
    without [Data/] is put behind [/Data/] whole. A [local:/] segment of a
    datasource value gives the parser the text behind the prefix, so that
    [local:/Data/<name>] resolves at [<base>/Data/<name>]. *)
Theorem local_path_resolution (basePath name : string) (acc : ParsedDatasource) :
  full_path basePath ("Data/" +:+ name) = basePath +:+ "/Data/" +:+ name
  /\ (contains "Data/" name = false ->
      full_path basePath name = basePath +:+ "/Data/" +:+ name)
  /\ parseSegment acc ("local:/" +:+ name)
     = mkParsed (directIds acc) (localPaths acc ++ [name])
  /\ map (full_path basePath)
         (localPaths (parseSegment no_datasources ("local:/Data/" +:+ name)))
     = [basePath +:+ "/Data/" +:+ name].
Proof.
  assert (Hfull : full_path basePath ("Data/" +:+ name) = basePath +:+ "/Data/" +:+ name).
  { unfold full_path. rewrite remove_first_unfold, prefix_append.
    now rewrite (substring_from_append "Data/" name). }
  assert (Hseg : forall a n, parseSegment a ("local:/" +:+ n)
                             = mkParsed (directIds a) (localPaths a ++ [n])).
  { intros a n. unfold parseSegment.
    change (isValidGuid ("local:/" +:+ n)) with false. cbv iota.
    unfold JsString.startsWith. rewrite prefix_append.
    pose proof (substring_from_append "local:/" n) as Hsub.
    simpl String.length in Hsub. now rewrite Hsub. }
  split; [exact Hfull|]. split.
  - intros Habs. unfold full_path. now rewrite remove_first_absent.
  - split; [apply Hseg|].
    change ("local:/Data/" +:+ name) with ("local:/" +:+ ("Data/" +:+ name)).
    rewrite Hseg. simpl. now rewrite Hfull.
Qed.

Lemma local_path_resolution_witness :
  full_path "/sitecore/content/Home" "Text 1" = "/sitecore/content/Home/Data/Text 1".
Proof.
  destruct (local_path_resolution "/sitecore/content/Home" "Text 1" no_datasources)
    as (_ & Habs & _).
  rewrite Habs; reflexivity.
Defined.





(** ** Status badge and status summary *)

Lemma filter_ext_length {A : Type} (f g : A -> bool) (l : list A) :
  (forall x, x ∈ l -> f x = g x) ->
  length (List.filter f l) = length (List.filter g l).
Proof.
  induction l as [|x l IH]; intros Hfg; [reflexivity|]. simpl.
  rewrite (Hfg x) by now left.
  destruct (g x); simpl; rewrite IH; auto; intros y Hy; apply Hfg; now right.
Qed.

(** The badge of a record reads [Not Published], [Outdated] or
    [Up-to-date]; the counts of the summary line count the first and the
    last of these badges, and together with the count of [Outdated] badges
    they add up to the number of records. On records of which none is
    outdated without being published, as the Reconciler makes them, the
    [outdated] count of the summary is the count of [Outdated] badges. *)
Theorem status_badges_partition (items : list ProcessedItemInfo.t) :
  unpublished (status_summary items) = count_status "Not Published" items
  /\ upToDate (status_summary items) = count_status "Up-to-date" items
  /\ count_status "Not Published" items + count_status "Outdated" items
     + count_status "Up-to-date" items = total (status_summary items)
  /\ ((forall p, p ∈ items -> ProcessedItemInfo.isOutdated p = true ->
                 ProcessedItemInfo.isPublished p = true) ->
      outdated (status_summary items) = count_status "Outdated" items
      /\ upToDate (status_summary items) + outdated (status_summary items)
         + unpublished (status_summary items) = total (status_summary items)).
Proof.
  assert (Hlabel : forall p,
            StatusConfig.status (getStatusConfig p)
            = if negb (ProcessedItemInfo.isPublished p) then "Not Published"
              else if ProcessedItemInfo.isOutdated p then "Outdated" else "Up-to-date").
  { intros p. unfold getStatusConfig.
    destruct (ProcessedItemInfo.isPublished p), (ProcessedItemInfo.isOutdated p);
      reflexivity. }
  assert (H1 : unpublished (status_summary items) = count_status "Not Published" items).
  { unfold status_summary, count_status; simpl. apply filter_ext_length.
    intros p _. rewrite Hlabel.
    destruct (ProcessedItemInfo.isPublished p), (ProcessedItemInfo.isOutdated p);
      reflexivity. }
  assert (H2 : upToDate (status_summary items) = count_status "Up-to-date" items).
  { unfold status_summary, count_status; simpl. apply filter_ext_length.
    intros p _. rewrite Hlabel.
    destruct (ProcessedItemInfo.isPublished p), (ProcessedItemInfo.isOutdated p);
      reflexivity. }
  assert (H3 : count_status "Not Published" items + count_status "Outdated" items
               + count_status "Up-to-date" items = length items).
  { clear H1 H2. unfold count_status. induction items as [|p l IH]; [reflexivity|].
    cbn [List.filter length]. rewrite Hlabel.
    destruct (ProcessedItemInfo.isPublished p), (ProcessedItemInfo.isOutdated p);
      cbn [negb String.eqb Ascii.eqb Bool.eqb andb length]; lia. }
  split; [exact H1|]. split; [exact H2|]. split; [exact H3|].
  intros Himp.
  assert (H4 : outdated (status_summary items) = count_status "Outdated" items).
  { unfold status_summary, count_status; simpl. apply filter_ext_length.
    intros p Hp. rewrite Hlabel. specialize (Himp p Hp).
    destruct (ProcessedItemInfo.isPublished p), (ProcessedItemInfo.isOutdated p);
      try reflexivity. discriminate Himp; reflexivity. }
  split; [exact H4|]. rewrite H1, H2, H4. simpl. lia.
Qed.

Lemma status_badges_partition_witness :
  outdated (status_summary sample_items) = count_status "Outdated" sample_items.
Proof.
  apply (status_badges_partition sample_items).
  intros p Hp. destruct (ProcessedItemInfo.isOutdated p) eqn:Hout; [|discriminate].
  intros _. revert Hout.
  apply list_elem_of_lookup in Hp as [[|[|i]] Hi]; vm_compute in Hi;
    try discriminate; injection Hi as <-; vm_compute; congruence.
Defined.

(** ** The first version of [extractItemIds] *)

(** On a context whose page info has no presentation details, the walker
    returns the canonical form of what the first version returned: the
    current item alone, or nothing. *)
Theorem walker_refines_v1 (JSON_parse : string -> option JsValue) (pageContext : JsValue) :
  truthy (field (field pageContext "pageInfo") "presentationDetails") = false ->
  extractItemIds JSON_parse pageContext
  = map normalizeItemId (extractItemIds_v1 pageContext)
  /\ length (extractItemIds_v1 pageContext) <= 1.
Proof.
  intros Hpd. unfold extractItemIds.
  rewrite extractItemIdsWithLocalPaths_unfold.
  unfold extractItemIds_v1, collected, current_item_candidate.
  rewrite Hpd, andb_false_r.
  destruct (negb (truthy pageContext && is_object pageContext));
    [split; [reflexivity | simpl; lia]|].
  cbv zeta. simpl negb. cbv iota.
  destruct (truthy (field pageContext "pageInfo")
            && is_object (field pageContext "pageInfo")).
  - destruct (truthy_string _); split; try reflexivity; simpl; lia.
  - change (truthy JNull) with false. change (truthy JUndefined) with false.
    change (negb false) with true. rewrite !andb_true_l.
    destruct (truthy (field pageContext "siteInfo")
              && is_object (field pageContext "siteInfo")).
    + destruct (truthy_string _); split; try reflexivity; simpl; lia.
    + change (truthy JNull) with false. change (truthy JUndefined) with false.
      change (negb false) with true. cbv iota.
      destruct (truthy_string _); split; try reflexivity; simpl; lia.
Qed.

Lemma walker_refines_v1_witness :
  extractItemIds no_json plain_context = map normalizeItemId (extractItemIds_v1 plain_context).
Proof. apply (walker_refines_v1 no_json plain_context). reflexivity. Defined.

(** ** Item type badges *)

(** Two item types never share a label or a colour. *)
Theorem item_type_badges_distinct (t1 t2 : ItemType) :
  (getItemTypeLabel t1 = getItemTypeLabel t2 -> t1 = t2)
  /\ (getItemTypeColor t1 = getItemTypeColor t2 -> t1 = t2).
Proof. destruct t1, t2; split; intros H; try reflexivity; discriminate H. Qed.

(** ** Evaluations, continued *)

(** Two matches side by side, the second without its closing brace. *)
Example scan_guids_adjacent :
  scan_guids 0 "see {5ed52178-8f06-49be-9d4c-f191e650189e}{9C8262E4-6456-4946-B04E-D5873874615E."
  = ["{5ed52178-8f06-49be-9d4c-f191e650189e}"; "{9C8262E4-6456-4946-B04E-D5873874615E"].
Proof. vm_compute. reflexivity. Qed.

(** A ninth hexadecimal digit in front: the match starts one character in. *)
Example scan_guids_shifted :
  scan_guids 0 "a5ed52178-8f06-49be-9d4c-f191e650189e"
  = ["5ed52178-8f06-49be-9d4c-f191e650189e"].
Proof. vm_compute. reflexivity. Qed.

Example references_of_fields :
  extractDatasourceReferences
    (mkItemWithFields (home_authoring "Home" 1)
       (Some [mkField "Link" "{5ed52178-8f06-49be-9d4c-f191e650189e}";
              mkField "Items"
                "5ED52178-8F06-49BE-9D4C-F191E650189E|{9c8262e4-6456-4946-b04e-d5873874615e}"]))
  = ["5ED52178-8F06-49BE-9D4C-F191E650189E"; "9C8262E4-6456-4946-B04E-D5873874615E"].
Proof. vm_compute. reflexivity. Qed.

(** The page item referenced by one of its own fields is listed twice, once
    in each form. *)
Example related_items_two_forms :
  extractAllRelatedItems no_json plain_context
    (Some (mkItemWithFields (home_authoring "Home" 1)
             (Some [mkField "Self" "{5ed52178-8f06-49be-9d4c-f191e650189e}"])))
  = ["5ED521788F0649BE9D4CF191E650189E"; "5ED52178-8F06-49BE-9D4C-F191E650189E"].
Proof. vm_compute. reflexivity. Qed.

Example response_of_nothing :
  createItemInformationResponse []
  = mkResponse NoCurrentItem [] (mkSummary 0 0 0 0).
Proof. reflexivity. Qed.

Example status_of_outdated :
  StatusConfig.description
    (getStatusConfig
       (ProcessedItemInfo.mk home_id "Home" "/sitecore/content/Home" 8 (Some 5%Z)
          true true 3 current None "en"))
  = "Published version (5) is behind latest version (8)".
Proof. vm_compute. reflexivity. Qed.

(** A path with [Data/] further in loses that occurrence. *)
Example full_path_inner_data :
  full_path "/sitecore/content/Home" "Shared/Data/Text 1"
  = "/sitecore/content/Home/Data/Shared/Text 1".
Proof. reflexivity. Qed.
